(** * send_fcm_notification.js: the scan / send / mark loop

    A shallow embedding of [sendNotifications] from
    [.github/workflows/send_fcm_notification.js] together with the two
    external services it talks to (the Realtime Database reference and the
    messaging client), and the properties of the loop. *)

From Stdlib Require Import ZArith Lia DecimalFacts DecimalNat DecimalString.
From stdpp Require Import base list strings.

Local Open Scope string_scope.
Local Open Scope list_scope.

(** ** JavaScript values *)

(** What [snapshot.val()] can hand to the script: JSON-like values. An
    object is its list of own enumerable properties in enumeration order;
    when a key is repeated in such a list the first binding is the property
    (a JavaScript object never repeats a key). Numbers are the integers
    (a double that is an integer prints as that integer below 2^53);
    strings are sequences of one-byte characters. *)
#[warnings="-register-all"]
Inductive value : Type :=
  | VUndefined
  | VNull
  | VBool (b : bool)
  | VNum (n : Z)
  | VStr (s : string)
  | VObj (props : list (string * value)).

(** What a rejected promise or a failed property read carries. *)
Inductive js_error : Type :=
  | TypeError
  | Rejection (reason : string).

Section Properties.
Context {A : Type}.

(** First binding of [k]. *)
Fixpoint assoc (k : string) (props : list (string * A)) : option A :=
  match props with
  | [] => None
  | (k', v) :: rest => if decide (k' = k) then Some v else assoc k rest
  end.

(** Overwrite the binding of [k] in place, or add it at the end. *)
Fixpoint set_prop (k : string) (v : A) (props : list (string * A))
  : list (string * A) :=
  match props with
  | [] => [(k, v)]
  | (k', v') :: rest =>
      if decide (k' = k) then (k, v) :: rest
      else (k', v') :: set_prop k v rest
  end.
End Properties.

(** Keys in order, each once (its first occurrence). *)
Fixpoint distinct (ks : list string) : list string :=
  match ks with
  | [] => []
  | k :: rest => k :: filter (λ k', k' ≠ k) (distinct rest)
  end.

Definition own_keys (props : list (string * value)) : list string :=
  distinct (props.*1).

(** Canonical array indices: ["0"], ["1"], ["2"], ... *)
Definition index_key (i : nat) : string :=
  NilZero.string_of_uint (Nat.to_uint i).

Definition key_index (k : string) : option nat :=
  match NilZero.uint_of_string k with
  | Some d =>
      let i := Nat.of_uint d in
      if decide (index_key i = k) then Some i else None
  | None => None
  end.

(** ToBoolean. *)
Definition truthy (v : value) : bool :=
  match v with
  | VUndefined | VNull => false
  | VBool b => b
  | VNum n => negb (n =? 0)%Z
  | VStr s => negb (String.eqb s "")
  | VObj _ => true
  end.

(** [v === true]. *)
Definition is_true (v : value) : bool :=
  match v with
  | VBool true => true
  | _ => false
  end.

(** The string a value converts to, when its conversion succeeds (see
    [interpolate]). Two kinds of value are not covered: an integer beyond
    2^53 in absolute value, which JavaScript does not print digit by digit,
    and an object that [val()] delivers as an array, whose elements
    JavaScript joins with commas; no statement below fixes the string of
    either. *)
Definition to_string (v : value) : string :=
  match v with
  | VUndefined => "undefined"
  | VNull => "null"
  | VBool true => "true"
  | VBool false => "false"
  | VNum n => NilZero.string_of_int (Z.to_int n)
  | VStr s => s
  | VObj _ => "[object Object]"
  end.

(** [`${v}`]: the ToString a template literal applies, which can throw. For
    an object it calls the object's [toString], then its [valueOf]. An
    object read from the database that has a key [toString] of its own
    holds there a value that cannot be called, and the [valueOf] it
    inherits returns the object itself: the conversion throws a TypeError.
    Without such a key the inherited [toString] answers. *)
Definition interpolate (v : value) : js_error + string :=
  match v with
  | VObj props =>
      if decide (is_Some (assoc "toString" props)) then inl TypeError
      else inr (to_string v)
  | _ => inr (to_string v)
  end.

(** Does [v] carry an own property [k]? *)
Definition has_prop (v : value) (k : string) : bool :=
  match v with
  | VObj props => bool_decide (is_Some (assoc k props))
  | VStr s =>
      match key_index k with
      | Some i => bool_decide (i < String.length s)
      | None => bool_decide (k = "length")
      end
  | _ => false
  end.

(** [v.k] / [v[k]]. Reading a property of [undefined] or [null] throws a
    TypeError; a missing property reads as [undefined]. Only own properties
    are modelled: the script reads enumerated own keys and the three names
    [cardPaymentDetails], [notified], [cardHolderName], none of which a
    built-in prototype defines. *)
Definition get_prop (v : value) (k : string) : js_error + value :=
  match v with
  | VUndefined | VNull => inl TypeError
  | VObj props => inr (default VUndefined (assoc k props))
  | VStr s =>
      match key_index k with
      | Some i =>
          match String.get i s with
          | Some c => inr (VStr (String c EmptyString))
          | None => inr VUndefined
          end
      | None =>
          if decide (k = "length") then inr (VNum (Z.of_nat (String.length s)))
          else inr VUndefined
      end
  | VBool _ | VNum _ => inr VUndefined
  end.

(** The keys [for (const k in v)] visits. *)
Definition for_in_keys (v : value) : list string :=
  match v with
  | VObj props => own_keys props
  | VStr s => index_key <$> seq 0 (String.length s)
  | _ => []
  end.

(** ** The messaging payload *)

Record notification : Type := Notification { title : string; body : string }.
Record message : Type := Message { notification_of : notification; topic : string }.

(** ** The outside world *)

(** What the script does to the outside, in the order it does it. *)
Inductive event : Type :=
  | Send (m : message)
      (** [messaging.send(m)] *)
  | Update (child : string) (patch : list (string * value))
      (** [ref.child(child).update(patch)] *)
  | ConsoleLog (line : string)
      (** [console.log(line)] *)
  | ConsoleError (label : string) (err : js_error)
      (** [console.error(label, err)] *).

(** The database content under the reference, and the events so far. Each
    event is recorded with the value of the loop variable [sessionId] in
    scope when it happened; the label is not part of what is sent or
    printed. *)
Record world : Type := World {
  store : value;
  trace : list (string * event)
}.

(** How the two services answer ([None]: the promise resolves). The answers
    to [send] and [update] are scripted per session id: the loop visits a
    key once, so any sequence of answers is such a script. *)
Record env : Type := Env {
  once_outcome : option js_error;
  send_outcome : string → message → option js_error;
  update_outcome : string → option js_error
}.

(** [update] on a child of the reference merges [patch] into the record
    at that child; a child that is missing or is not an object becomes
    the patch. *)
Definition merge_props (patch base : list (string * value))
  : list (string * value) :=
  foldl (λ acc p, set_prop p.1 p.2 acc) base patch.

Definition update_child (st : value) (child : string)
    (patch : list (string * value)) : value :=
  let children := match st with VObj ss => ss | _ => [] end in
  let fields :=
    match assoc child children with
    | Some (VObj fs) => fs
    | _ => []
    end in
  VObj (set_prop child (VObj (merge_props patch fields)) children).

(** ** State and exceptions *)

Definition M (A : Type) : Type := world → world * (js_error + A).

Definition ret {A} (a : A) : M A := λ w, (w, inr a).
Definition throw {A} (e : js_error) : M A := λ w, (w, inl e).
Definition bind {A B} (m : M A) (f : A → M B) : M B :=
  λ w, match m w with
       | (w', inr a) => f a w'
       | (w', inl e) => (w', inl e)
       end.
Definition try_catch {A} (m : M A) (handler : js_error → M A) : M A :=
  λ w, match m w with
       | (w', inl e) => handler e w'
       | r => r
       end.
Definition lift {A} (r : js_error + A) : M A := λ w, (w, r).

Notation "x <- m ;; k" := (bind m (λ x, k))
  (at level 100, m at next level, right associativity).
Notation "m ;; k" := (bind m (λ _, k))
  (at level 100, right associativity).

Definition emit (sessionId : string) (ev : event) : M unit :=
  λ w, (World (store w) (trace w ++ [(sessionId, ev)]), inr tt).

Fixpoint for_each (keys : list string) (body : string → M unit) : M unit :=
  match keys with
  | [] => ret tt
  | k :: rest => body k ;; for_each rest body
  end.

(** ** The services *)

Section Script.
Variable e : env.

(** [await ref.once("value")] followed by [snapshot.val()]. *)
Definition once_value : M value :=
  λ w, match once_outcome e with
       | Some err => (w, inl err)
       | None => (w, inr (store w))
       end.

(** [await messaging.send(message)] *)
Definition messaging_send (sessionId : string) (m : message) : M unit :=
  emit sessionId (Send m) ;;
  match send_outcome e sessionId m with
  | Some err => throw err
  | None => ret tt
  end.

(** [await ref.child(sessionId).update(patch)]; a rejected update has
    written nothing. *)
Definition ref_child_update (sessionId : string)
    (patch : list (string * value)) : M unit :=
  emit sessionId (Update sessionId patch) ;;
  match update_outcome e sessionId with
  | Some err => throw err
  | None => λ w, (World (update_child (store w) sessionId patch) (trace w), inr tt)
  end.

Definition console_log (sessionId : string) (line : string) : M unit :=
  emit sessionId (ConsoleLog line).

Definition console_error (sessionId : string) (label : string)
    (err : js_error) : M unit :=
  emit sessionId (ConsoleError label err).

(** ** The script *)

(** The message of lines 26 to 32, for a name whose conversion to a string
    succeeds. *)
Definition make_message (cardHolderName : value) : message :=
  {| notification_of :=
       {| title := "New Card Added";
          body := "Cardholder: " +:+ to_string cardHolderName |};
     topic := "admin" |}.

(** Lines 26 to 32 as they are evaluated: the template literal of line 29
    converts the name, and throws when the conversion does. *)
Definition build_message (cardHolderName : value) : M message :=
  text <- lift (interpolate cardHolderName) ;;
  ret {| notification_of :=
           {| title := "New Card Added";
              body := "Cardholder: " +:+ text |};
         topic := "admin" |}.

(** The guard of line 24: [session.cardPaymentDetails &&
    session.notified !== true]. *)
Definition guard (session : value) : M bool :=
  details <- lift (get_prop session "cardPaymentDetails") ;;
  if truthy details then
    notified <- lift (get_prop session "notified") ;;
    ret (negb (is_true notified))
  else ret false.

(** The body of the [for ... in] loop, lines 23 to 41. *)
Definition loop_body (data : value) (sessionId : string) : M unit :=
  session <- lift (get_prop data sessionId) ;;
  selected <- guard session ;;
  if selected then
    details <- lift (get_prop session "cardPaymentDetails") ;;
    cardHolderName <- lift (get_prop details "cardHolderName") ;;
    message <- build_message cardHolderName ;;
    try_catch
      (messaging_send sessionId message ;;
       ref_child_update sessionId [("notified", VBool true)] ;;
       console_log sessionId
         ("Notification sent for card: " +:+ to_string cardHolderName))
      (λ err, console_error sessionId "Error sending notification:" err)
  else ret tt.

Definition sendNotifications : M unit :=
  data <- once_value ;;
  for_each (for_in_keys data) (loop_body data).
End Script.

(** One invocation of the script against a database holding [st]. *)
Definition run (e : env) (st : value) : world * (js_error + unit) :=
  sendNotifications e (World st []).

(** ** What an observer reads off a trace *)

(** The events that happened while the loop variable was [k]. *)
Definition events_of (k : string) (tr : list (string * event)) : list event :=
  (filter (λ p, p.1 = k) tr).*2.

Definition is_console (ev : event) : bool :=
  match ev with
  | ConsoleLog _ | ConsoleError _ _ => true
  | _ => false
  end.

Definition is_update (ev : event) : bool :=
  match ev with
  | Update _ _ => true
  | _ => false
  end.

(** What the console shows: the printed entries, without the labels. *)
Definition console (tr : list (string * event)) : list event :=
  filter (λ ev, is_console ev = true) (tr.*2).

Definition nullish (v : value) : bool :=
  match v with
  | VUndefined | VNull => true
  | _ => false
  end.

(** [data[k].f], when both reads succeed. *)
Definition field (data : value) (k f : string) : js_error + value :=
  match get_prop data k with
  | inr session => get_prop session f
  | inl err => inl err
  end.

(** The database after successive invocations, one per element of [es]. *)
Fixpoint runs (es : list env) (st : value) : value :=
  match es with
  | [] => st
  | e :: rest => runs rest (store (run e st).1)
  end.

(** ** The loop, summarised

    What one turn of the loop comes to, read off [loop_body]: the turn
    fails on a property read or on the conversion of the name, or skips
    the session, or attempts the delivery of a message built from a
    cardholder name. The lemmas
    [loop_body_eq] and [run_eq] below relate these to the script. *)
Inductive plan : Type :=
  | Fails (err : js_error)
  | Skips
  | Attempts (cardHolderName : value).

Definition plan_of (data : value) (k : string) : plan :=
  match get_prop data k with
  | inl err => Fails err
  | inr session =>
      match get_prop session "cardPaymentDetails" with
      | inl err => Fails err
      | inr details =>
          if truthy details then
            match get_prop session "notified" with
            | inl err => Fails err
            | inr notified =>
                if is_true notified then Skips
                else
                  match get_prop details "cardHolderName" with
                  | inl err => Fails err
                  | inr name =>
                      match interpolate name with
                      | inl err => Fails err
                      | inr _ => Attempts name
                      end
                  end
            end
          else Skips
      end
  end.

Definition mark_patch : list (string * value) := [("notified", VBool true)].

Definition error_label : string := "Error sending notification:".

Definition attempt_events (e : env) (k : string) (name : value)
  : list (string * event) :=
  let m := make_message name in
  match send_outcome e k m with
  | Some err => [(k, Send m); (k, ConsoleError error_label err)]
  | None =>
      match update_outcome e k with
      | Some err =>
          [(k, Send m); (k, Update k mark_patch);
           (k, ConsoleError error_label err)]
      | None =>
          [(k, Send m); (k, Update k mark_patch);
           (k, ConsoleLog ("Notification sent for card: " +:+ to_string name))]
      end
  end.

Definition attempt_marks (e : env) (k : string) (name : value) : bool :=
  match send_outcome e k (make_message name), update_outcome e k with
  | None, None => true
  | _, _ => false
  end.

Definition plan_events (e : env) (data : value) (k : string)
  : list (string * event) :=
  match plan_of data k with
  | Attempts name => attempt_events e k name
  | _ => []
  end.

Definition plan_store (e : env) (data : value) (st : value) (k : string)
  : value :=
  match plan_of data k with
  | Attempts name =>
      if attempt_marks e k name then update_child st k mark_patch else st
  | _ => st
  end.

(** The keys the loop gets through before a turn fails. *)
Fixpoint reached (data : value) (keys : list string) : list string :=
  match keys with
  | [] => []
  | k :: rest =>
      match plan_of data k with
      | Fails _ => []
      | _ => k :: reached data rest
      end
  end.

Fixpoint loop_result (data : value) (keys : list string) : js_error + unit :=
  match keys with
  | [] => inr ()
  | k :: rest =>
      match plan_of data k with
      | Fails err => inl err
      | _ => loop_result data rest
      end
  end.

(** Does the turn for [k] get as far as a successful update? *)
Definition marked (e : env) (data : value) (k : string) : bool :=
  match plan_of data k with
  | Attempts name => attempt_marks e k name
  | _ => false
  end.

Definition fields_of (session : option value) : list (string * value) :=
  match session with
  | Some (VObj fs) => fs
  | _ => []
  end.

(** ** Sample databases and services *)

Definition alice : value :=
  VObj [("cardPaymentDetails", VObj [("cardHolderName", VStr "Alice")]);
        ("notified", VBool false)].

Definition bob : value :=
  VObj [("cardPaymentDetails", VObj [("cardHolderName", VStr "Bob")]);
        ("notified", VBool false)].

(** [alice] once marked. *)
Definition alice_notified : value :=
  VObj [("cardPaymentDetails", VObj [("cardHolderName", VStr "Alice")]);
        ("notified", VBool true)].

(** A session without [cardPaymentDetails]. *)
Definition no_card : value := VObj [("notified", VBool false)].

(** [cardPaymentDetails] is there, and is [0]. *)
Definition zero_details : value :=
  VObj [("cardPaymentDetails", VNum 0); ("notified", VBool false)].

(** [cardPaymentDetails] is an object without a [cardHolderName]. *)
Definition nameless : value :=
  VObj [("cardPaymentDetails", VObj [("last4", VStr "4242")])].

(** The cardholder name is an object with a key [toString] of its own. *)
Definition odd_name : value :=
  VObj [("cardPaymentDetails",
         VObj [("cardHolderName", VObj [("toString", VStr "x")])])].

Definition all_ok : env := Env None (λ _ _, None) (λ _, None).

Definition failing_fetch : env :=
  Env (Some (Rejection "unavailable")) (λ _ _, None) (λ _, None).

Definition send_fails : env :=
  Env None (λ _ _, Some (Rejection "timeout")) (λ _, None).

Definition mark_fails : env :=
  Env None (λ _ _, None) (λ _, Some (Rejection "timeout")).

(** The channel rejects the message sent for [s1] and no other. *)
Definition send_fails_for_s1 : env :=
  Env None
    (λ k _, if decide (k = "s1") then Some (Rejection "timeout") else None)
    (λ _, None).

(** ** Further observations *)

Definition is_send (ev : event) : bool :=
  match ev with
  | Send _ => true
  | _ => false
  end.

(** Does the guard of line 24 hold for [data[k]]? *)
Definition selected (data : value) (k : string) : bool :=
  match get_prop data k with
  | inr session =>
      match (guard session (World data [])).2 with
      | inr true => true
      | _ => false
      end
  | inl _ => false
  end.

(** ** Property lists *)

Section PropertyLists.
Context {A : Type}.
Implicit Types (k : string) (v : A) (ps : list (string * A)).

Lemma assoc_is_Some k ps : is_Some (assoc k ps) ↔ k ∈ ps.*1.
Proof.
  induction ps as [|[k' v'] ps IH]; simpl.
  - split; [intros [? [=]] | intros H; inversion H].
  - case_decide as Hk; subst.
    + split; [intros _; left | eauto].
    + rewrite IH. split; [by right|].
      intros H. inversion H; subst; [done | assumption].
Qed.

Lemma assoc_set_prop_eq k v ps : assoc k (set_prop k v ps) = Some v.
Proof.
  induction ps as [|[k' v'] ps IH]; simpl.
  - by rewrite decide_True.
  - case_decide; simpl; [by rewrite decide_True | by rewrite decide_False].
Qed.

Lemma assoc_set_prop_ne k k' v ps :
  k ≠ k' → assoc k' (set_prop k v ps) = assoc k' ps.
Proof.
  intros Hne. induction ps as [|[k0 v0] ps IH]; simpl.
  - by rewrite decide_False.
  - case_decide; subst; simpl.
    + by rewrite !decide_False.
    + by rewrite IH.
Qed.

Lemma set_prop_keys k v ps :
  k ∈ ps.*1 → (set_prop k v ps).*1 = ps.*1.
Proof.
  induction ps as [|[k0 v0] ps IH]; simpl; intros Hin.
  - inversion Hin.
  - case_decide; subst; simpl; [done|].
    f_equal. apply IH. inversion Hin; subst; [done | assumption].
Qed.
End PropertyLists.

Lemma elem_of_distinct k ks : k ∈ distinct ks ↔ k ∈ ks.
Proof.
  induction ks as [|k0 ks IH]; simpl; [done|].
  rewrite !elem_of_cons, list_elem_of_filter, IH.
  destruct (decide (k = k0)); tauto.
Qed.

Lemma NoDup_distinct ks : NoDup (distinct ks).
Proof.
  induction ks as [|k0 ks IH]; simpl; constructor.
  - rewrite list_elem_of_filter. tauto.
  - by apply NoDup_filter.
Qed.

(** The loop visits exactly the keys that are bound. *)
Lemma elem_of_for_in_keys_object props k :
  k ∈ for_in_keys (VObj props) ↔ is_Some (assoc k props).
Proof. simpl. unfold own_keys. by rewrite elem_of_distinct, assoc_is_Some. Qed.

Lemma to_uint_not_Nil n : Nat.to_uint n ≠ Decimal.Nil.
Proof.
  pose proof (Unsigned.to_of (Nat.to_uint n)) as H.
  rewrite Unsigned.of_to in H. rewrite H. apply unorm_nonnil.
Qed.

Lemma parse_index_key i :
  NilZero.uint_of_string (index_key i) = Some (Nat.to_uint i).
Proof. apply NilZero.usu, to_uint_not_Nil. Qed.

Lemma index_key_inj i j : index_key i = index_key j → i = j.
Proof.
  intros H. pose proof (parse_index_key i) as Hi.
  rewrite H, parse_index_key in Hi.
  injection Hi as Hi. by apply Unsigned.to_uint_inj.
Qed.

Lemma key_index_index_key i : key_index (index_key i) = Some i.
Proof.
  unfold key_index. rewrite parse_index_key. simpl.
  rewrite Unsigned.of_to. by rewrite decide_True.
Qed.

Lemma string_get_in_range s i :
  i < String.length s → ∃ c, String.get i s = Some c.
Proof.
  revert i. induction s as [|c s IH]; intros i; simpl; [lia|].
  destruct i as [|i]; [by exists c|]. intros Hi. apply IH. lia.
Qed.

(** Every key the loop visits in a string reads back as one character. *)
Lemma get_prop_string_key s k :
  k ∈ for_in_keys (VStr s) →
  ∃ c, get_prop (VStr s) k = inr (VStr (String c EmptyString)).
Proof.
  simpl. intros (i & -> & Hi)%list_elem_of_fmap.
  apply elem_of_seq in Hi as [_ Hi]. simpl in Hi.
  rewrite key_index_index_key.
  destruct (string_get_in_range s i Hi) as [c ->]. by exists c.
Qed.

Lemma NoDup_for_in_keys data : NoDup (for_in_keys data).
Proof.
  destruct data; simpl; try constructor.
  - apply NoDup_fmap_2; [intros i j; apply index_key_inj | apply NoDup_seq].
  - apply NoDup_distinct.
Qed.

(** ** The script against its summary *)

Lemma interpolate_inr v text : interpolate v = inr text → text = to_string v.
Proof.
  destruct v; simpl; try by intros [= <-].
  case_decide; [done | by intros [= <-]].
Qed.

Lemma interpolate_inl v err : interpolate v = inl err → err = TypeError.
Proof.
  destruct v; simpl; try done. case_decide; [by intros [= <-] | done].
Qed.

(** A value that is not an object converts. *)
Lemma interpolate_primitive v :
  (∀ props, v ≠ VObj props) → interpolate v = inr (to_string v).
Proof. destruct v; try done. intros H. by destruct (H props). Qed.

Lemma loop_body_eq e data k w :
  loop_body e data k w =
  match plan_of data k with
  | Fails err => (w, inl err)
  | Skips => (w, inr ())
  | Attempts name =>
      (World (if attempt_marks e k name
              then update_child (store w) k mark_patch else store w)
             (trace w ++ attempt_events e k name),
       inr ())
  end.
Proof.
  unfold loop_body, plan_of, guard, bind, lift, ret.
  destruct (get_prop data k) as [err|session]; [done|].
  destruct (get_prop session "cardPaymentDetails") as [err|details]; [done|].
  destruct (truthy details); [|by destruct w].
  destruct (get_prop session "notified") as [err|notified]; [done|].
  destruct (is_true notified); simpl; [by destruct w|].
  destruct (get_prop details "cardHolderName") as [err|name]; [done|].
  unfold build_message, bind, lift, ret.
  destruct (interpolate name) as [err|text] eqn:Hi; [done|].
  apply interpolate_inr in Hi as ->.
  change {| notification_of :=
              {| title := "New Card Added";
                 body := "Cardholder: " +:+ to_string name |};
            topic := "admin" |} with (make_message name).
  unfold try_catch, messaging_send, ref_child_update, console_log,
    console_error, attempt_events, attempt_marks, emit, bind, throw, ret.
  simpl.
  destruct (send_outcome e k (make_message name)) as [err|]; simpl.
  { by rewrite <- app_assoc. }
  destruct (update_outcome e k) as [err|]; simpl.
  - by rewrite <- !app_assoc.
  - by rewrite <- !app_assoc.
Qed.

Lemma for_each_eq e data keys w :
  for_each keys (loop_body e data) w =
  (World (foldl (plan_store e data) (store w) (reached data keys))
         (trace w ++ (reached data keys ≫= plan_events e data)),
   loop_result data keys).
Proof.
  revert w. induction keys as [|k keys IH]; intros w; simpl.
  - unfold ret. destruct w; simpl. by rewrite app_nil_r.
  - unfold bind. rewrite loop_body_eq.
    assert (Hs : ∀ st, plan_store e data st k =
      match plan_of data k with
      | Attempts name =>
          if attempt_marks e k name then update_child st k mark_patch else st
      | _ => st
      end) by done.
    assert (He : plan_events e data k =
      match plan_of data k with
      | Attempts name => attempt_events e k name
      | _ => []
      end) by done.
    destruct (plan_of data k) as [err| |name]; simpl.
    + destruct w; simpl. by rewrite app_nil_r.
    + by rewrite IH, Hs, He.
    + rewrite IH, Hs, He. simpl. by rewrite <- app_assoc.
Qed.

Lemma run_eq e st :
  run e st =
  match once_outcome e with
  | Some err => (World st [], inl err)
  | None =>
      (World (foldl (plan_store e st) st (reached st (for_in_keys st)))
             (reached st (for_in_keys st) ≫= plan_events e st),
       loop_result st (for_in_keys st))
  end.
Proof.
  unfold run, sendNotifications, bind, once_value.
  destruct (once_outcome e); [done|]. simpl. by rewrite for_each_eq.
Qed.

(** ** Plans *)

Lemma truthy_details_object session details :
  get_prop session "cardPaymentDetails" = inr details →
  truthy details = true →
  ∃ fs, session = VObj fs ∧ assoc "cardPaymentDetails" fs = Some details.
Proof.
  destruct session as [| |b|n|s|fs]; simpl; try done.
  - intros [= <-]. done.
  - intros [= <-]. done.
  - intros [= <-]. done.
  - intros [= <-] Ht. exists fs. split; [done|].
    destruct (assoc "cardPaymentDetails" fs); [done | discriminate].
Qed.

Lemma plan_of_Attempts data k name :
  plan_of data k = Attempts name ↔
  ∃ session details notified,
    get_prop data k = inr session ∧
    get_prop session "cardPaymentDetails" = inr details ∧
    truthy details = true ∧
    get_prop session "notified" = inr notified ∧
    is_true notified = false ∧
    get_prop details "cardHolderName" = inr name ∧
    interpolate name = inr (to_string name).
Proof.
  unfold plan_of. split.
  - destruct (get_prop data k) as [|session]; [done|].
    destruct (get_prop session "cardPaymentDetails") as [|details] eqn:Hd;
      [done|].
    destruct (truthy details) eqn:Ht; [|done].
    destruct (get_prop session "notified") as [|notified] eqn:Hn; [done|].
    destruct (is_true notified) eqn:Hnt; [done|].
    destruct (get_prop details "cardHolderName") as [|name'] eqn:Hname;
      [done|].
    destruct (interpolate name') as [|text] eqn:Hi; [done|].
    intros [= ->]. exists session, details, notified.
    by rewrite (interpolate_inr _ _ Hi) in Hi.
  - intros (session & details & notified & -> & -> & -> & -> & -> & -> & ->).
    done.
Qed.

Lemma plan_of_Attempts_object data k name :
  plan_of data k = Attempts name →
  ∃ ss fs, data = VObj ss ∧ assoc k ss = Some (VObj fs).
Proof.
  rewrite plan_of_Attempts.
  intros (session & details & notified & Hk & Hd & Ht & _).
  destruct (truthy_details_object _ _ Hd Ht) as (fs & -> & _).
  destruct data as [| |b|n|s|ss]; simpl in Hk; try done.
  - destruct (key_index k); [destruct (String.get _ _)|case_decide]; done.
  - exists ss, fs. split; [done|].
    destruct (assoc k ss) as [v|]; simpl in Hk; [|done].
    by injection Hk as ->.
Qed.

Lemma plan_of_ext data data' k :
  get_prop data k = get_prop data' k → plan_of data k = plan_of data' k.
Proof. unfold plan_of. by intros ->. Qed.

Lemma marked_Attempts e data k :
  marked e data k = true →
  ∃ name, plan_of data k = Attempts name ∧
    send_outcome e k (make_message name) = None ∧
    update_outcome e k = None.
Proof.
  unfold marked, attempt_marks.
  destruct (plan_of data k) as [| |name]; try done.
  destruct (send_outcome e k (make_message name)) eqn:Hs; [done|].
  destruct (update_outcome e k) eqn:Hu; [done|].
  intros _. by exists name.
Qed.

Lemma plan_store_marked e data st k :
  plan_store e data st k =
  if marked e data k then update_child st k mark_patch else st.
Proof. unfold plan_store, marked. by destruct (plan_of data k). Qed.

(** ** The keys the loop gets through *)

Lemma reached_sublist data keys : reached data keys `sublist_of` keys.
Proof.
  induction keys as [|k keys IH]; simpl; [done|].
  destruct (plan_of data k); [apply sublist_nil_l | | ]; by apply sublist_skip.
Qed.

Lemma elem_of_reached data keys k : k ∈ reached data keys → k ∈ keys.
Proof. intros H. eapply elem_of_sublist; [done | apply reached_sublist]. Qed.

Lemma NoDup_reached data keys : NoDup keys → NoDup (reached data keys).
Proof. intros H. eapply sublist_NoDup; [done | apply reached_sublist]. Qed.

Lemma reached_no_Fails data keys k :
  k ∈ reached data keys → ∀ err, plan_of data k ≠ Fails err.
Proof.
  induction keys as [|k0 keys IH]; simpl; [by intros ?%elem_of_nil|].
  destruct (plan_of data k0) eqn:Hp; [by intros ?%elem_of_nil| |];
    (intros [->|H]%elem_of_cons; [by rewrite Hp | by apply IH]).
Qed.

Lemma loop_result_reached data keys :
  loop_result data keys = inr () ↔ reached data keys = keys.
Proof.
  induction keys as [|k keys IH]; simpl; [done|].
  destruct (plan_of data k); [done| |]; rewrite IH;
    (split; [by intros -> | by intros [=]]).
Qed.

Lemma loop_result_no_Fails data keys :
  (∀ k, k ∈ keys → ∀ err, plan_of data k ≠ Fails err) →
  loop_result data keys = inr ().
Proof.
  induction keys as [|k keys IH]; simpl; [done|]. intros H.
  destruct (plan_of data k) eqn:Hp.
  - exfalso. eapply (H k); [left | done].
  - apply IH. intros k' Hk'. apply H. by right.
  - apply IH. intros k' Hk'. apply H. by right.
Qed.

(** ** Traces *)

Lemma attempt_events_tag e k name p : p ∈ attempt_events e k name → p.1 = k.
Proof.
  unfold attempt_events.
  destruct (send_outcome e k _); [|destruct (update_outcome e k)];
    rewrite ?elem_of_cons, elem_of_nil; intros H;
    repeat destruct H as [->|H]; done.
Qed.

Lemma plan_events_tag e data k p : p ∈ plan_events e data k → p.1 = k.
Proof.
  unfold plan_events. destruct (plan_of data k); try by inversion 1.
  apply attempt_events_tag.
Qed.

Lemma elem_of_plan_trace e data ks k ev :
  (k, ev) ∈ ks ≫= plan_events e data ↔
  k ∈ ks ∧ (k, ev) ∈ plan_events e data k.
Proof.
  rewrite list_elem_of_bind. split.
  - intros (k' & Hev & Hk'). apply plan_events_tag in Hev as Htag.
    simpl in Htag. by subst.
  - intros [? ?]. by exists k.
Qed.

Lemma events_of_app j tr1 tr2 :
  events_of j (tr1 ++ tr2) = events_of j tr1 ++ events_of j tr2.
Proof. unfold events_of. by rewrite filter_app, fmap_app. Qed.

Lemma events_of_same j tr :
  (∀ p, p ∈ tr → p.1 = j) → events_of j tr = tr.*2.
Proof.
  intros H. unfold events_of. f_equal.
  induction tr as [|p tr IH]; [done|].
  rewrite filter_cons_True by (apply H; left).
  f_equal. apply IH. intros q Hq. apply H. by right.
Qed.

Lemma events_of_other j tr :
  (∀ p, p ∈ tr → p.1 ≠ j) → events_of j tr = [].
Proof.
  intros H. unfold events_of.
  induction tr as [|p tr IH]; [done|].
  rewrite filter_cons_False by (apply H; left).
  apply IH. intros q Hq. apply H. by right.
Qed.

Lemma events_of_plan_events e data k j :
  events_of j (plan_events e data k) =
  if decide (k = j) then (plan_events e data k).*2 else [].
Proof.
  case_decide as Hk.
  - subst. apply events_of_same. apply plan_events_tag.
  - apply events_of_other. intros p Hp.
    apply plan_events_tag in Hp. congruence.
Qed.

Lemma events_of_plan_trace e data ks j :
  NoDup ks →
  events_of j (ks ≫= plan_events e data) =
  if decide (j ∈ ks) then (plan_events e data j).*2 else [].
Proof.
  induction 1 as [|k ks Hk Hnd IH]; [done|].
  rewrite bind_cons, events_of_app, IH, events_of_plan_events.
  destruct (decide (k = j)) as [->|Hne].
  - rewrite decide_False by done. rewrite app_nil_r.
    by rewrite decide_True by left.
  - simpl. destruct (decide (j ∈ ks)) as [Hin|Hnin].
    + by rewrite decide_True by (by right).
    + rewrite decide_False; [done|].
      intros [->|?]%elem_of_cons; done.
Qed.

(** ** The run, piece by piece *)

Lemma run_result e st :
  once_outcome e = None → (run e st).2 = loop_result st (for_in_keys st).
Proof. intros H. by rewrite run_eq, H. Qed.

Lemma run_store e st :
  once_outcome e = None →
  store (run e st).1 =
  foldl (plan_store e st) st (reached st (for_in_keys st)).
Proof. intros H. by rewrite run_eq, H. Qed.

Lemma run_completes_reached e st :
  once_outcome e = None → (run e st).2 = inr () →
  reached st (for_in_keys st) = for_in_keys st.
Proof. intros H. rewrite run_result by done. apply loop_result_reached. Qed.

Lemma run_trace_elem e st k ev :
  (k, ev) ∈ trace (run e st).1 ↔
  once_outcome e = None ∧ k ∈ reached st (for_in_keys st) ∧
  (k, ev) ∈ plan_events e st k.
Proof.
  rewrite run_eq. destruct (once_outcome e) eqn:Ho; simpl.
  - split; [by inversion 1 | by intros [? _]].
  - rewrite elem_of_plan_trace. tauto.
Qed.

Lemma run_events_of e st j :
  events_of j (trace (run e st).1) =
  if decide (once_outcome e = None ∧ j ∈ reached st (for_in_keys st))
  then (plan_events e st j).*2 else [].
Proof.
  rewrite run_eq. destruct (once_outcome e) eqn:Ho.
  - rewrite decide_False; [done | by intros [? _]].
  - cbn [fst trace]. rewrite events_of_plan_trace
      by apply NoDup_reached, NoDup_for_in_keys.
    destruct (decide (j ∈ reached st (for_in_keys st))).
    + by rewrite decide_True.
    + rewrite decide_False; [done | tauto].
Qed.

(** ** The store *)

Lemma update_child_object cs k :
  update_child (VObj cs) k mark_patch =
  VObj (set_prop k
          (VObj (set_prop "notified" (VBool true) (fields_of (assoc k cs))))
          cs).
Proof.
  unfold update_child, fields_of. simpl.
  by destruct (assoc k cs) as [[]|].
Qed.

Lemma foldl_plan_store_no_object e data st ks :
  (∀ ss, data ≠ VObj ss) → foldl (plan_store e data) st ks = st.
Proof.
  intros Hno. induction ks as [|k ks IH]; simpl; [done|].
  rewrite plan_store_marked.
  destruct (marked e data k) eqn:Hm; [|done].
  apply marked_Attempts in Hm as (name & Hp & _).
  apply plan_of_Attempts_object in Hp as (ss & fs & -> & _).
  by destruct (Hno ss).
Qed.

Lemma foldl_plan_store_object e ss ks :
  NoDup ks →
  ∀ cs, (∀ j, j ∈ ks → assoc j cs = assoc j ss) →
  ∃ cs',
    foldl (plan_store e (VObj ss)) (VObj cs) ks = VObj cs' ∧
    cs'.*1 = cs.*1 ∧
    ∀ j, assoc j cs' =
         if decide (j ∈ ks ∧ marked e (VObj ss) j = true)
         then Some (VObj (set_prop "notified" (VBool true)
                            (fields_of (assoc j ss))))
         else assoc j cs.
Proof.
  induction 1 as [|k ks Hk Hnd IH]; intros cs Hcs; cbn [foldl].
  { exists cs. split_and!; [done..|]. intros j.
    rewrite decide_False; [done|]. by intros [?%elem_of_nil _]. }
  rewrite plan_store_marked.
  destruct (marked e (VObj ss) k) eqn:Hm.
  - rewrite update_child_object.
    assert (Hin : k ∈ cs.*1).
    { apply assoc_is_Some. rewrite Hcs by left.
      apply marked_Attempts in Hm as (name & Hp & _).
      apply plan_of_Attempts_object in Hp as (ss' & fs & [= <-] & ->).
      done. }
    edestruct (IH (set_prop k
        (VObj (set_prop "notified" (VBool true) (fields_of (assoc k cs))))
        cs)) as (cs' & Hfold & Hkeys & Hassoc).
    { intros j Hj. rewrite assoc_set_prop_ne by (intros ->; done).
      apply Hcs. by right. }
    exists cs'. split_and!; [done| |].
    { by rewrite Hkeys, set_prop_keys. }
    intros j. rewrite Hassoc.
    destruct (decide (j = k)) as [->|Hne].
    + rewrite decide_False by (by intros [? _]).
      rewrite decide_True by (split; [left | done]).
      rewrite assoc_set_prop_eq. rewrite Hcs by left. done.
    + rewrite assoc_set_prop_ne by done.
      destruct (decide (j ∈ ks ∧ _)) as [[Hj Hmj]|Hn].
      * rewrite decide_True; [done|]. split; [by right | done].
      * rewrite decide_False; [done|].
        intros [[->|Hj]%elem_of_cons Hmj]; [done|]. by apply Hn.
  - edestruct (IH cs) as (cs' & Hfold & Hkeys & Hassoc).
    { intros j Hj. apply Hcs. by right. }
    exists cs'. split_and!; [done..|].
    intros j. rewrite Hassoc.
    destruct (decide (j ∈ ks ∧ _)) as [[Hj Hmj]|Hn].
    + rewrite decide_True; [done|]. split; [by right | done].
    + rewrite decide_False; [done|].
      intros [[->|Hj]%elem_of_cons Hmj]; [congruence|]. by apply Hn.
Qed.

Lemma run_store_shape e st :
  (store (run e st).1 = st ∧ ∀ j, marked e st j = false ∨
      ¬ (once_outcome e = None ∧ j ∈ reached st (for_in_keys st))) ∨
  (∃ ss cs',
      once_outcome e = None ∧ st = VObj ss ∧
      store (run e st).1 = VObj cs' ∧ cs'.*1 = ss.*1 ∧
      ∀ j, assoc j cs' =
           if decide (j ∈ reached st (for_in_keys st) ∧ marked e st j = true)
           then Some (VObj (set_prop "notified" (VBool true)
                              (fields_of (assoc j ss))))
           else assoc j ss).
Proof.
  destruct (once_outcome e) as [err|] eqn:Ho.
  { left. rewrite run_eq, Ho. split; [done|]. intros j. right. by intros [? _]. }
  rewrite run_store by done.
  destruct st as [| |b|n|s|ss].
  1-5: left; split; [by apply foldl_plan_store_no_object|];
       intros j; left; destruct (marked e _ j) eqn:Hm; [|done];
       apply marked_Attempts in Hm as (name & Hp & _);
       by apply plan_of_Attempts_object in Hp as (? & ? & ? & _).
  right.
  destruct (foldl_plan_store_object e ss (reached (VObj ss) (for_in_keys (VObj ss)))
              (NoDup_reached _ _ (NoDup_for_in_keys _)) ss)
    as (cs' & Hfold & Hkeys & Hassoc); [done|].
  by exists ss, cs'.
Qed.

Lemma run_keys e st : for_in_keys (store (run e st).1) = for_in_keys st.
Proof.
  destruct (run_store_shape e st) as [[-> _]|(ss & cs' & _ & -> & -> & Hk & _)].
  - done.
  - simpl. unfold own_keys. by rewrite Hk.
Qed.

Lemma run_store_at e st j :
  (get_prop (store (run e st).1) j = get_prop st j ∧
   ¬ (once_outcome e = None ∧ j ∈ reached st (for_in_keys st) ∧
      marked e st j = true)) ∨
  (once_outcome e = None ∧ j ∈ reached st (for_in_keys st) ∧
   marked e st j = true ∧
   ∃ fs, get_prop st j = inr (VObj fs) ∧
         get_prop (store (run e st).1) j =
         inr (VObj (set_prop "notified" (VBool true) fs))).
Proof.
  destruct (run_store_shape e st)
    as [[-> Hno]|(ss & cs' & Ho & -> & -> & _ & Hassoc)].
  { left. split; [done|]. intros (? & ? & Hm).
    destruct (Hno j) as [Hf|Hn]; [congruence | by apply Hn]. }
  specialize (Hassoc j).
  destruct (decide (j ∈ _ ∧ _)) as [[Hj Hm]|Hn].
  - right. split_and!; [done..|].
    apply marked_Attempts in Hm as (name & Hp & _).
    apply plan_of_Attempts_object in Hp as (ss' & fs & [= <-] & Hfs).
    exists fs. simpl. rewrite Hassoc, Hfs. done.
  - left. simpl. rewrite Hassoc. split; [done | tauto].
Qed.

(** A record whose turn did not end in a successful update is as it was. *)
Lemma run_store_unmarked e st j :
  marked e st j = false →
  get_prop (store (run e st).1) j = get_prop st j.
Proof.
  intros Hm. destruct (run_store_at e st j) as [[? _]|(_ & _ & Hm' & _)];
    [done | congruence].
Qed.

(** ** The fetch *)

(** C5. If fetching the snapshot fails, the run aborts with that failure
    before any session is looked at: nothing is sent, no update is issued,
    nothing is printed, the database is as it was, and the failure is the
    result of the run. *)
Theorem fetch_failure_aborts (e : env) (st : value) (err : js_error) :
  once_outcome e = Some err →
  (run e st).2 = inl err ∧
  trace (run e st).1 = [] ∧
  store (run e st).1 = st.
Proof. intros H. by rewrite run_eq, H. Qed.

Lemma fetch_failure_aborts_witness :
  once_outcome failing_fetch = Some (Rejection "unavailable") ∧
  (run failing_fetch (VObj [("s1", alice)])).2 = inl (Rejection "unavailable") ∧
  trace (run failing_fetch (VObj [("s1", alice)])).1 = [] ∧
  store (run failing_fetch (VObj [("s1", alice)])).1 = VObj [("s1", alice)].
Proof.
  split; [reflexivity|].
  apply (fetch_failure_aborts failing_fetch (VObj [("s1", alice)])
           (Rejection "unavailable")).
  reflexivity.
Defined.

(** ** Selection *)

Lemma send_in_attempt_events e k name :
  (k, Send (make_message name)) ∈ attempt_events e k name.
Proof.
  unfold attempt_events.
  destruct (send_outcome e k _); [|destruct (update_outcome e k)]; left.
Qed.

Lemma send_of_attempt_events e k name k' m :
  (k', Send m) ∈ attempt_events e k name → m = make_message name.
Proof.
  unfold attempt_events.
  destruct (send_outcome e k _); [|destruct (update_outcome e k)];
    rewrite ?elem_of_cons, elem_of_nil; intros H;
    repeat destruct H as [[= <- <-]|H]; done.
Qed.

Lemma run_send_elem e st k m :
  (k, Send m) ∈ trace (run e st).1 ↔
  once_outcome e = None ∧ k ∈ reached st (for_in_keys st) ∧
  ∃ name, plan_of st k = Attempts name ∧ m = make_message name.
Proof.
  rewrite run_trace_elem. unfold plan_events. split.
  - intros (Ho & Hk & Hev). split_and!; [done..|].
    destruct (plan_of st k) as [| |name]; try by inversion Hev.
    exists name. split; [done|]. by eapply send_of_attempt_events.
  - intros (Ho & Hk & name & -> & ->). split_and!; [done..|].
    apply send_in_attempt_events.
Qed.

Lemma truthy_get_prop details f :
  truthy details = true → ∃ v, get_prop details f = inr v.
Proof.
  destruct details; simpl; try done; eauto.
  intros _. destruct (key_index f); [destruct (String.get _ _)|case_decide];
    eauto.
Qed.

(** A session for which the guard holds is attempted, unless the conversion
    of its name throws. *)
Lemma plan_of_guard data k session :
  get_prop data k = inr session →
  (∃ details notified,
      get_prop session "cardPaymentDetails" = inr details ∧
      truthy details = true ∧
      get_prop session "notified" = inr notified ∧
      is_true notified = false) →
  (∃ name, plan_of data k = Attempts name) ∨ plan_of data k = Fails TypeError.
Proof.
  intros Hs (details & notified & Hd & Ht & Hn & Hnt).
  destruct (truthy_get_prop details "cardHolderName" Ht) as [name Hname].
  unfold plan_of. rewrite Hs, Hd, Ht, Hn, Hnt, Hname.
  destruct (interpolate name) as [err|text] eqn:Hi.
  - right. by rewrite (interpolate_inl _ _ Hi).
  - left. by exists name.
Qed.

Lemma plan_of_guard_reached data keys k session :
  k ∈ reached data keys →
  get_prop data k = inr session →
  (∃ details notified,
      get_prop session "cardPaymentDetails" = inr details ∧
      truthy details = true ∧
      get_prop session "notified" = inr notified ∧
      is_true notified = false) →
  ∃ name, plan_of data k = Attempts name.
Proof.
  intros Hk Hs Hcond.
  destruct (plan_of_guard data k session Hs Hcond) as [?|Hf]; [done|].
  by destruct (reached_no_Fails data keys k Hk TypeError).
Qed.

Lemma get_prop_no_name details :
  truthy details = true → has_prop details "cardHolderName" = false →
  get_prop details "cardHolderName" = inr VUndefined.
Proof.
  destruct details as [| |b|n|s|fs]; simpl; try done.
  intros _. rewrite bool_decide_eq_false. intros Hno.
  destruct (assoc "cardHolderName" fs); [|done].
  destruct Hno. eauto.
Qed.

Lemma guard_eq session w :
  guard session w =
  (w, match get_prop session "cardPaymentDetails" with
      | inl err => inl err
      | inr details =>
          if truthy details then
            match get_prop session "notified" with
            | inl err => inl err
            | inr notified => inr (negb (is_true notified))
            end
          else inr false
      end).
Proof.
  unfold guard, bind, lift, ret.
  destruct (get_prop session "cardPaymentDetails") as [|details]; [done|].
  destruct (truthy details); [|done].
  by destruct (get_prop session "notified").
Qed.

Lemma guard_true_iff session w :
  guard session w = (w, inr true) ↔
  ∃ details notified,
    get_prop session "cardPaymentDetails" = inr details ∧
    truthy details = true ∧
    get_prop session "notified" = inr notified ∧
    is_true notified = false.
Proof.
  rewrite guard_eq. split.
  - destruct (get_prop session "cardPaymentDetails") as [|details] eqn:Hd;
      [done|].
    destruct (truthy details) eqn:Ht; [|done].
    destruct (get_prop session "notified") as [|notified] eqn:Hn; [done|].
    destruct (is_true notified) eqn:Hnt; [done|].
    intros _. by exists details, notified.
  - by intros (details & notified & -> & -> & -> & ->).
Qed.

(** C1, as amended. A session of the snapshot is selected (the guard of
    line 24 holds for it) if and only if its [cardPaymentDetails] reads as a
    truthy value and its [notified] is not strictly [true]; in a run that
    fetched the snapshot and completed, these are exactly the sessions for
    which a send is attempted; and a session with [notified: true] is never
    selected and never sent for, whatever else it holds. *)
Theorem filter_by_truthiness (e : env) (st : value) (k : string)
    (session : value) :
  get_prop st k = inr session →
  (∀ w, guard session w = (w, inr true) ↔
        ∃ details notified,
          get_prop session "cardPaymentDetails" = inr details ∧
          truthy details = true ∧
          get_prop session "notified" = inr notified ∧
          is_true notified = false) ∧
  (once_outcome e = None → (run e st).2 = inr () → k ∈ for_in_keys st →
   ((∃ m, (k, Send m) ∈ trace (run e st).1) ↔
    ∃ details notified,
      get_prop session "cardPaymentDetails" = inr details ∧
      truthy details = true ∧
      get_prop session "notified" = inr notified ∧
      is_true notified = false)) ∧
  (get_prop session "notified" = inr (VBool true) →
   (∀ w, guard session w = (w, inr false)) ∧
   ¬ ∃ m, (k, Send m) ∈ trace (run e st).1).
Proof.
  intros Hs. split_and!.
  - intros w. apply guard_true_iff.
  - intros Ho Hdone Hk.
    pose proof (run_completes_reached e st Ho Hdone) as Hall. split.
    + intros (m & (_ & _ & name & Hp & _)%run_send_elem).
      apply plan_of_Attempts in Hp
        as (session' & details & notified & Hs' & ? & ? & ? & ? & ?).
      rewrite Hs in Hs'. injection Hs' as <-.
      by exists details, notified.
    + intros Hcond.
      destruct (plan_of_guard_reached st (for_in_keys st) k session)
        as [name Hp]; [by rewrite Hall | done | done |].
      exists (make_message name). apply run_send_elem.
      split_and!; [done | by rewrite Hall |]. by exists name.
  - intros Hn. split.
    + intros w. rewrite guard_eq, Hn.
      destruct (get_prop session "cardPaymentDetails") as [|details] eqn:Hd.
      { by destruct session. }
      by destruct (truthy details).
    + intros (m & (_ & _ & name & Hp & _)%run_send_elem).
      apply plan_of_Attempts in Hp
        as (session' & details & notified & Hs' & _ & _ & Hn' & Hnt & _).
      rewrite Hs in Hs'. injection Hs' as <-.
      rewrite Hn in Hn'. injection Hn' as <-. done.
Qed.

Lemma filter_by_truthiness_witness :
  get_prop (VObj [("s1", alice)]) "s1" = inr alice ∧
  (∀ w, guard alice w = (w, inr true)) ∧
  (∃ m, ("s1", Send m) ∈ trace (run all_ok (VObj [("s1", alice)])).1).
Proof.
  split; [reflexivity|].
  destruct (filter_by_truthiness all_ok (VObj [("s1", alice)]) "s1" alice
              eq_refl) as (Hguard & Hrun & _).
  assert (Hcond : ∃ details notified,
            get_prop alice "cardPaymentDetails" = inr details ∧
            truthy details = true ∧
            get_prop alice "notified" = inr notified ∧
            is_true notified = false).
  { exists (VObj [("cardHolderName", VStr "Alice")]), (VBool false).
    split_and!; reflexivity. }
  split.
  - intros w. by apply Hguard.
  - apply Hrun; [reflexivity | reflexivity | vm_compute; left | exact Hcond].
Defined.

(** C1, as stated, fails: the field is present and [notified] is [false],
    yet the guard does not hold and no send is attempted for the session,
    because the field holds [0]. *)
Lemma filter_by_presence_fails :
  (has_prop zero_details "cardPaymentDetails" = true ∧
   get_prop zero_details "notified" = inr (VBool false)) ∧
  guard zero_details (World (VObj [("s1", zero_details)]) [])
    = (World (VObj [("s1", zero_details)]) [], inr false) ∧
  ¬ ((∃ m, ("s1", Send m) ∈ trace (run all_ok (VObj [("s1", zero_details)])).1) ↔
     (has_prop zero_details "cardPaymentDetails" = true ∧
      ∃ notified,
        get_prop zero_details "notified" = inr notified ∧
        is_true notified = false)).
Proof.
  split_and!; [reflexivity | reflexivity | reflexivity |].
  intros [_ H]. destruct H as [m Hm].
  - split; [reflexivity|]. exists (VBool false). split; reflexivity.
  - vm_compute in Hm. inversion Hm.
Qed.

(** ** The payload *)

(** C7. Every payload handed to [messaging.send] carries the title
    "New Card Added", the topic "admin", and a body made of "Cardholder: "
    followed by the text the template literal makes of the session's
    [cardPaymentDetails.cardHolderName]: the name itself when it is a
    string (so "Alice" gives a body containing "Alice"), "undefined",
    "null", "true" or "false" for those values, and the decimal digits of
    an integer up to 2^53. The payload varies with nothing else: whatever
    the run, the database and the other fields, a send for a session with
    the same name carries the same payload. *)
Theorem payload_is_fixed_but_for_name (e : env) (st : value) (k : string)
    (m : message) :
  (k, Send m) ∈ trace (run e st).1 →
  ∃ session details name text,
    get_prop st k = inr session ∧
    get_prop session "cardPaymentDetails" = inr details ∧
    get_prop details "cardHolderName" = inr name ∧
    m = {| notification_of :=
             {| title := "New Card Added";
                body := "Cardholder: " +:+ text |};
           topic := "admin" |} ∧
    (∀ s, name = VStr s → text = s) ∧
    (name = VUndefined → text = "undefined") ∧
    (name = VNull → text = "null") ∧
    (∀ b : bool, name = VBool b → text = if b then "true" else "false") ∧
    (∀ n, name = VNum n → (Z.abs n ≤ 2 ^ 53)%Z →
          text = NilZero.string_of_int (Z.to_int n)) ∧
    (∀ e' st' k' m' session' details',
        (k', Send m') ∈ trace (run e' st').1 →
        get_prop st' k' = inr session' →
        get_prop session' "cardPaymentDetails" = inr details' →
        get_prop details' "cardHolderName" = inr name →
        m' = m).
Proof.
  intros (_ & _ & name & Hp & ->)%run_send_elem.
  apply plan_of_Attempts in Hp
    as (session & details & notified & ? & ? & _ & _ & _ & ? & _).
  exists session, details, name, (to_string name).
  split_and!; [done..| | | | | |].
  - by intros s ->.
  - by intros ->.
  - by intros ->.
  - by intros [] ->.
  - by intros n -> _.
  - intros e' st' k' m' session' details'
      (_ & _ & name' & Hp' & ->)%run_send_elem Hs' Hd' Hn'.
    apply plan_of_Attempts in Hp'
      as (session2 & details2 & notified2 & Hs2 & Hd2 & _ & _ & _ & Hn2 & _).
    rewrite Hs' in Hs2. injection Hs2 as <-.
    rewrite Hd' in Hd2. injection Hd2 as <-.
    rewrite Hn' in Hn2. by injection Hn2 as <-.
Qed.

Lemma payload_is_fixed_but_for_name_witness :
  ("s1", Send (make_message (VStr "Alice")))
    ∈ trace (run all_ok (VObj [("s1", alice)])).1 ∧
  make_message (VStr "Alice") =
    {| notification_of :=
         {| title := "New Card Added"; body := "Cardholder: Alice" |};
       topic := "admin" |} ∧
  ∃ session details name text,
    get_prop (VObj [("s1", alice)]) "s1" = inr session ∧
    get_prop session "cardPaymentDetails" = inr details ∧
    get_prop details "cardHolderName" = inr name ∧
    make_message (VStr "Alice") =
      {| notification_of :=
           {| title := "New Card Added";
              body := "Cardholder: " +:+ text |};
         topic := "admin" |} ∧
    (∀ s, name = VStr s → text = s).
Proof.
  assert (H : ("s1", Send (make_message (VStr "Alice")))
                ∈ trace (run all_ok (VObj [("s1", alice)])).1)
    by (vm_compute; left).
  split; [exact H|]. split; [reflexivity|].
  destruct (payload_is_fixed_but_for_name all_ok (VObj [("s1", alice)]) "s1"
              (make_message (VStr "Alice")) H)
    as (session & details & name & text & Hs & Hd & Hn & Hm & Hstr & _).
  exists session, details, name, text. by split_and!.
Defined.

(** C10. When [cardPaymentDetails] is truthy but has no [cardHolderName],
    the turn of the loop does not raise and is not skipped: it completes,
    and the first thing it does is to send the payload whose body is
    "Cardholder: undefined". In a run that completes, that send is in the
    trace. *)
Theorem missing_name_sends_undefined (e : env) (data : value) (k : string)
    (session details notified : value) :
  get_prop data k = inr session →
  get_prop session "cardPaymentDetails" = inr details →
  truthy details = true →
  has_prop details "cardHolderName" = false →
  get_prop session "notified" = inr notified →
  is_true notified = false →
  let m := {| notification_of :=
                {| title := "New Card Added";
                   body := "Cardholder: undefined" |};
              topic := "admin" |} in
  (∀ w, ∃ w' later,
      loop_body e data k w = (w', inr ()) ∧
      trace w' = trace w ++ (k, Send m) :: later) ∧
  (once_outcome e = None → (run e data).2 = inr () → k ∈ for_in_keys data →
   (k, Send m) ∈ trace (run e data).1).
Proof.
  intros Hs Hd Ht Hno Hn Hnt m.
  pose proof (get_prop_no_name details Ht Hno) as Hname.
  assert (Hp : plan_of data k = Attempts VUndefined).
  { apply plan_of_Attempts. by exists session, details, notified. }
  split.
  - intros w. rewrite loop_body_eq, Hp. unfold attempt_events.
    change (make_message VUndefined) with m.
    destruct (send_outcome e k m); [|destruct (update_outcome e k)];
      eexists _, _; (split; [reflexivity|]); done.
  - intros Ho Hdone Hk. apply run_send_elem. split_and!; [done| |].
    + by rewrite (run_completes_reached e data Ho Hdone).
    + by exists VUndefined.
Qed.

Lemma missing_name_sends_undefined_witness :
  let m := {| notification_of :=
                {| title := "New Card Added";
                   body := "Cardholder: undefined" |};
              topic := "admin" |} in
  (get_prop (VObj [("s1", nameless)]) "s1" = inr nameless ∧
   get_prop nameless "cardPaymentDetails" = inr (VObj [("last4", VStr "4242")]) ∧
   truthy (VObj [("last4", VStr "4242")]) = true ∧
   has_prop (VObj [("last4", VStr "4242")]) "cardHolderName" = false ∧
   get_prop nameless "notified" = inr VUndefined ∧
   is_true VUndefined = false) ∧
  (∀ w, ∃ w' later,
      loop_body send_fails (VObj [("s1", nameless)]) "s1" w = (w', inr ()) ∧
      trace w' = trace w ++ ("s1", Send m) :: later) ∧
  (once_outcome send_fails = None →
   (run send_fails (VObj [("s1", nameless)])).2 = inr () →
   "s1" ∈ for_in_keys (VObj [("s1", nameless)]) →
   ("s1", Send m) ∈ trace (run send_fails (VObj [("s1", nameless)])).1).
Proof.
  intros m. split; [split_and!; reflexivity|].
  apply (missing_name_sends_undefined send_fails (VObj [("s1", nameless)])
           "s1" nameless (VObj [("last4", VStr "4242")]) VUndefined);
    reflexivity.
Defined.

(** ** Details that are there and falsy *)

(** C9. A session whose [cardPaymentDetails] is present but holds [null],
    [false], [0] or the empty string is not a candidate: its turn of the
    loop does nothing and does not raise, no event of the run belongs to
    it, and its record is as it was. *)
Theorem falsy_details_excluded (e : env) (st : value) (k : string)
    (fs : list (string * value)) (details : value) :
  get_prop st k = inr (VObj fs) →
  assoc "cardPaymentDetails" fs = Some details →
  details = VNull ∨ details = VBool false ∨ details = VNum 0
    ∨ details = VStr "" →
  has_prop (VObj fs) "cardPaymentDetails" = true ∧
  (∀ w, loop_body e st k w = (w, inr ())) ∧
  events_of k (trace (run e st).1) = [] ∧
  get_prop (store (run e st).1) k = get_prop st k.
Proof.
  intros Hs Hd Hfalsy.
  assert (Ht : truthy details = false)
    by (destruct Hfalsy as [->|[->|[->| ->]]]; reflexivity).
  assert (Hp : plan_of st k = Skips).
  { unfold plan_of. rewrite Hs. simpl. rewrite Hd. simpl. by rewrite Ht. }
  split_and!.
  - simpl. rewrite Hd. by apply bool_decide_eq_true.
  - intros w. by rewrite loop_body_eq, Hp.
  - rewrite run_events_of. unfold plan_events. rewrite Hp.
    by destruct (decide _).
  - apply run_store_unmarked. unfold marked. by rewrite Hp.
Qed.

Lemma falsy_details_excluded_witness :
  (get_prop (VObj [("s1", zero_details)]) "s1"
     = inr (VObj [("cardPaymentDetails", VNum 0); ("notified", VBool false)]) ∧
   assoc "cardPaymentDetails"
     [("cardPaymentDetails", VNum 0); ("notified", VBool false)]
     = Some (VNum 0)) ∧
  has_prop zero_details "cardPaymentDetails" = true ∧
  (∀ w, loop_body all_ok (VObj [("s1", zero_details)]) "s1" w = (w, inr ())) ∧
  events_of "s1" (trace (run all_ok (VObj [("s1", zero_details)])).1) = [] ∧
  get_prop (store (run all_ok (VObj [("s1", zero_details)])).1) "s1"
    = get_prop (VObj [("s1", zero_details)]) "s1".
Proof.
  split; [split; reflexivity|].
  apply (falsy_details_excluded all_ok (VObj [("s1", zero_details)]) "s1"
           [("cardPaymentDetails", VNum 0); ("notified", VBool false)]
           (VNum 0)); [reflexivity | reflexivity | auto].
Defined.

(** ** Updates *)

Lemma attempt_events_update_split e k name before k' child patch after :
  attempt_events e k name = before ++ (k', Update child patch) :: after →
  before = [(k, Send (make_message name))] ∧
  send_outcome e k (make_message name) = None ∧
  k' = k ∧ child = k ∧ patch = mark_patch.
Proof.
  unfold attempt_events.
  destruct (send_outcome e k _) eqn:Hs; [|destruct (update_outcome e k)];
    intros H;
    destruct before as [|p1 [|p2 [|p3 [|p4 before]]]]; simplify_eq/=; done.
Qed.

Lemma update_in_attempt_events e k name k' child patch :
  (k', Update child patch) ∈ attempt_events e k name →
  send_outcome e k (make_message name) = None ∧
  k' = k ∧ child = k ∧ patch = mark_patch.
Proof.
  intros (before & after & H)%list_elem_of_split.
  apply attempt_events_update_split in H. tauto.
Qed.

Lemma plan_trace_update_split e data ks :
  ∀ before k child patch after,
    ks ≫= plan_events e data = before ++ (k, Update child patch) :: after →
    ∃ earlier m,
      before = earlier ++ [(k, Send m)] ∧
      send_outcome e k m = None ∧ child = k ∧ patch = mark_patch.
Proof.
  induction ks as [|k0 ks IH]; intros before k child patch after.
  { by destruct before. }
  rewrite bind_cons.
  intros [(mid & H1 & H2)|(mid & H1 & H2)]%app_eq_inv.
  - destruct mid as [|p mid].
    + symmetry in H2. apply (IH []) in H2 as (earlier & m & Hnil & _).
      by destruct earlier.
    + injection H2 as <- _.
      unfold plan_events in H1.
      destruct (plan_of data k0) as [| |name]; [by destruct before..|].
      apply attempt_events_update_split in H1 as (-> & Hs & -> & -> & ->).
      by exists [], (make_message name).
  - subst before. apply IH in H2 as (earlier & m & -> & ? & ? & ?).
    exists (plan_events e data k0 ++ earlier), m.
    by rewrite <- app_assoc.
Qed.

Lemma send_failure_not_marked e st k m err :
  (k, Send m) ∈ trace (run e st).1 →
  send_outcome e k m = Some err →
  marked e st k = false.
Proof.
  intros (_ & _ & name & Hp & ->)%run_send_elem Hs.
  unfold marked, attempt_marks. by rewrite Hp, Hs.
Qed.

Lemma mark_failure_not_marked e st k err :
  update_outcome e k = Some err → marked e st k = false.
Proof.
  intros Hu. unfold marked, attempt_marks.
  destruct (plan_of st k); [done..|].
  rewrite Hu. by destruct (send_outcome e k _).
Qed.

(** C2. In the trace of a run, every call to [update] comes right after the
    call to [send] for the same session, that send was answered with
    success, and the update writes [notified: true] to that session; and
    when the send for a session is answered with a failure, no update is
    addressed to that session and its record in the database is as it was
    before the run. *)
Theorem no_premature_mark (e : env) (st : value) :
  (∀ before after k child patch,
      trace (run e st).1 = before ++ (k, Update child patch) :: after →
      ∃ earlier m,
        before = earlier ++ [(k, Send m)] ∧
        send_outcome e k m = None ∧
        child = k ∧ patch = [("notified", VBool true)]) ∧
  (∀ k m err,
      (k, Send m) ∈ trace (run e st).1 →
      send_outcome e k m = Some err →
      get_prop (store (run e st).1) k = get_prop st k ∧
      ∀ k' patch, (k', Update k patch) ∉ trace (run e st).1).
Proof.
  split.
  - intros before after k child patch.
    rewrite run_eq. destruct (once_outcome e); cbn [fst trace].
    + by destruct before.
    + apply plan_trace_update_split.
  - intros k m err Hsend Hs. split.
    + apply run_store_unmarked. by eapply send_failure_not_marked.
    + intros k' patch (_ & _ & Hev)%run_trace_elem.
      unfold plan_events in Hev.
      destruct (plan_of st k') as [| |name'] eqn:Hp'; [by inversion Hev..|].
      apply update_in_attempt_events in Hev as (Hok & _ & <- & _).
      apply run_send_elem in Hsend as (_ & _ & name & Hp & ->).
      rewrite Hp in Hp'. injection Hp' as ->. congruence.
Qed.

Lemma no_premature_mark_witness :
  (trace (run all_ok (VObj [("s1", alice)])).1
   = [("s1", Send (make_message (VStr "Alice")))]
     ++ ("s1", Update "s1" [("notified", VBool true)])
     :: [("s1", ConsoleLog "Notification sent for card: Alice")] ∧
   ∃ earlier m,
     [("s1", Send (make_message (VStr "Alice")))] = earlier ++ [("s1", Send m)] ∧
     send_outcome all_ok "s1" m = None) ∧
  (send_outcome send_fails "s1" (make_message (VStr "Alice"))
   = Some (Rejection "timeout") ∧
   get_prop (store (run send_fails (VObj [("s1", alice)])).1) "s1"
   = get_prop (VObj [("s1", alice)]) "s1").
Proof.
  split.
  - split; [reflexivity|].
    destruct (no_premature_mark all_ok (VObj [("s1", alice)])) as [Hupd _].
    destruct (Hupd [("s1", Send (make_message (VStr "Alice")))]
                [("s1", ConsoleLog "Notification sent for card: Alice")]
                "s1" "s1" [("notified", VBool true)] eq_refl)
      as (earlier & m & Heq & Hok & _).
    by exists earlier, m.
  - split; [reflexivity|].
    destruct (no_premature_mark send_fails (VObj [("s1", alice)])) as [_ Hfail].
    destruct (Hfail "s1" (make_message (VStr "Alice")) (Rejection "timeout"))
      as [Hsame _]; [vm_compute; left | reflexivity | exact Hsame].
Defined.

(** C3. When the send for a session succeeds and the update that follows
    fails, the session's record is as it was before the run, so its
    [notified] is still not [true] and the guard of line 24 holds for it
    again; any later run over that database which completes sends the same
    message for that session again. *)
Theorem unmarked_is_sent_again (e : env) (st : value) (k : string)
    (m : message) (err : js_error) :
  (k, Send m) ∈ trace (run e st).1 →
  send_outcome e k m = None →
  update_outcome e k = Some err →
  get_prop (store (run e st).1) k = get_prop st k ∧
  (∃ session notified,
      get_prop (store (run e st).1) k = inr session ∧
      get_prop session "notified" = inr notified ∧
      is_true notified = false ∧
      ∀ w, guard session w = (w, inr true)) ∧
  (∀ e',
      once_outcome e' = None →
      (run e' (store (run e st).1)).2 = inr () →
      (k, Send m) ∈ trace (run e' (store (run e st).1)).1).
Proof.
  intros (_ & Hk & name & Hp & ->)%run_send_elem _ Hu.
  assert (Hsame : get_prop (store (run e st).1) k = get_prop st k).
  { apply run_store_unmarked. by eapply mark_failure_not_marked. }
  split_and!; [done| |].
  - apply plan_of_Attempts in Hp
      as (session & details & notified & ? & ? & ? & ? & ? & _).
    exists session, notified. rewrite Hsame. split_and!; [done..|].
    intros w. apply guard_true_iff. by exists details, notified.
  - intros e' Ho' Hdone'. apply run_send_elem. split_and!; [done| |].
    + rewrite (run_completes_reached e' _ Ho' Hdone'), run_keys.
      by eapply elem_of_reached.
    + exists name. split; [|done].
      by rewrite (plan_of_ext _ st k Hsame).
Qed.

Lemma unmarked_is_sent_again_witness :
  (("s1", Send (make_message (VStr "Alice")))
     ∈ trace (run mark_fails (VObj [("s1", alice)])).1 ∧
   send_outcome mark_fails "s1" (make_message (VStr "Alice")) = None ∧
   update_outcome mark_fails "s1" = Some (Rejection "timeout")) ∧
  get_prop (store (run mark_fails (VObj [("s1", alice)])).1) "s1"
    = get_prop (VObj [("s1", alice)]) "s1" ∧
  ("s1", Send (make_message (VStr "Alice")))
    ∈ trace (run all_ok (store (run mark_fails (VObj [("s1", alice)])).1)).1.
Proof.
  assert (H : ("s1", Send (make_message (VStr "Alice")))
                ∈ trace (run mark_fails (VObj [("s1", alice)])).1)
    by (vm_compute; left).
  split; [split_and!; [exact H | reflexivity | reflexivity]|].
  destruct (unmarked_is_sent_again mark_fails (VObj [("s1", alice)]) "s1"
              (make_message (VStr "Alice")) (Rejection "timeout")
              H eq_refl eq_refl) as (Hsame & _ & Hagain).
  split; [exact Hsame|].
  apply Hagain; reflexivity.
Defined.

(** ** Failures of a turn *)

Lemma get_prop_not_nullish v f :
  nullish v = false → ∃ x, get_prop v f = inr x.
Proof.
  destruct v; simpl; try done; eauto.
  intros _. destruct (key_index f); [destruct (String.get _ _)|case_decide];
    eauto.
Qed.

Lemma get_prop_key data k : k ∈ for_in_keys data → ∃ v, get_prop data k = inr v.
Proof.
  intros Hk. apply get_prop_not_nullish.
  destruct data; try done; by inversion Hk.
Qed.

Lemma plan_of_Fails data k err :
  plan_of data k = Fails err →
  get_prop data k = inl err ∨
  (∃ session, get_prop data k = inr session ∧ nullish session = true) ∨
  (∃ session details name,
      get_prop data k = inr session ∧
      get_prop session "cardPaymentDetails" = inr details ∧
      get_prop details "cardHolderName" = inr name ∧
      interpolate name = inl err).
Proof.
  unfold plan_of.
  destruct (get_prop data k) as [err'|session]; [intros [= ->]; by left|].
  intros H. right.
  destruct (nullish session) eqn:Hnull; [left; by exists session|]. right.
  destruct (get_prop_not_nullish session "cardPaymentDetails" Hnull)
    as [details Hd].
  destruct (get_prop_not_nullish session "notified" Hnull) as [n Hn].
  rewrite Hd, Hn in H.
  destruct (truthy details) eqn:Ht; [|done].
  destruct (truthy_get_prop details "cardHolderName" Ht) as [name Hname].
  rewrite Hname in H. destruct (is_true n); [done|].
  destruct (interpolate name) as [err'|text] eqn:Hi; [|done].
  injection H as ->. by exists session, details, name.
Qed.

Lemma plan_events_agree e1 e2 data j :
  (∀ m, send_outcome e1 j m = send_outcome e2 j m) →
  update_outcome e1 j = update_outcome e2 j →
  plan_events e1 data j = plan_events e2 data j ∧
  marked e1 data j = marked e2 data j.
Proof.
  intros Hs Hu. unfold plan_events, marked, attempt_events, attempt_marks.
  destruct (plan_of data j); [done..|]. by rewrite Hs, Hu.
Qed.

(** C4. Whether a run that fetched the snapshot completes does not depend
    on how any send or update is answered, and neither does the list of
    sessions sent for or the message sent for each. What the run does for a
    session [j] (its events, in order) and what becomes of the record of
    [j] depend on the answers given for [j] alone: changing the answers
    for other sessions, from failure to success or back, changes neither.
    A session that is sent for goes through send, update and log exactly as
    its own answers dictate. And when no session of the snapshot is [null]
    or [undefined] and no cardholder name is an object, the run completes,
    whatever fails. *)
Theorem failure_isolation (e1 e2 : env) (st : value) :
  once_outcome e1 = None →
  once_outcome e2 = None →
  (run e1 st).2 = (run e2 st).2 ∧
  (∀ j,
      (∀ m, send_outcome e1 j m = send_outcome e2 j m) →
      update_outcome e1 j = update_outcome e2 j →
      events_of j (trace (run e1 st).1) = events_of j (trace (run e2 st).1) ∧
      get_prop (store (run e1 st).1) j = get_prop (store (run e2 st).1) j) ∧
  (∀ j m,
      (j, Send m) ∈ trace (run e1 st).1 ↔ (j, Send m) ∈ trace (run e2 st).1) ∧
  (∀ j m,
      (j, Send m) ∈ trace (run e1 st).1 →
      ∃ name,
        m = make_message name ∧
        events_of j (trace (run e1 st).1) =
        match send_outcome e1 j m with
        | Some err => [Send m; ConsoleError "Error sending notification:" err]
        | None =>
            match update_outcome e1 j with
            | Some err =>
                [Send m; Update j [("notified", VBool true)];
                 ConsoleError "Error sending notification:" err]
            | None =>
                [Send m; Update j [("notified", VBool true)];
                 ConsoleLog ("Notification sent for card: " +:+ to_string name)]
            end
        end) ∧
  ((∀ k session,
       k ∈ for_in_keys st → get_prop st k = inr session →
       nullish session = false ∧
       ∀ details name,
         get_prop session "cardPaymentDetails" = inr details →
         get_prop details "cardHolderName" = inr name →
         ∀ props, name ≠ VObj props) →
   (run e1 st).2 = inr ()).
Proof.
  intros Ho1 Ho2. split_and!.
  - by rewrite !run_result.
  - intros j Hs Hu.
    destruct (plan_events_agree e1 e2 st j Hs Hu) as [Hev Hm]. split.
    + by rewrite !run_events_of, Hev, Ho1, Ho2.
    + destruct (run_store_at e1 st j) as [[H1 N1]|(_ & R1 & M1 & fs1 & S1 & F1)],
        (run_store_at e2 st j) as [[H2 N2]|(_ & R2 & M2 & fs2 & S2 & F2)].
      * congruence.
      * destruct N1. rewrite Hm. done.
      * destruct N2. rewrite <- Hm. done.
      * rewrite S1 in S2. injection S2 as <-. congruence.
  - intros j m. rewrite !run_send_elem. tauto.
  - intros j m (_ & Hj & name & Hp & ->)%run_send_elem.
    exists name. split; [done|].
    rewrite run_events_of, decide_True by done.
    unfold plan_events, attempt_events. rewrite Hp.
    by destruct (send_outcome e1 j _); [|destruct (update_outcome e1 j)].
  - intros Hobj. rewrite run_result by done.
    apply loop_result_no_Fails. intros k Hk err Hp.
    destruct (get_prop_key st k Hk) as [v Hv].
    apply plan_of_Fails in Hp
      as [Hf|[(session & Hsess & Hnull)
             |(session & details & name & Hsess & Hd & Hn & Hi)]].
    + congruence.
    + destruct (Hobj k session Hk Hsess) as [Hnot _]. congruence.
    + destruct (Hobj k session Hk Hsess) as [_ Hname].
      rewrite interpolate_primitive in Hi; [done|]. by eapply Hname.
Qed.

Lemma failure_isolation_witness :
  (once_outcome send_fails_for_s1 = None ∧ once_outcome all_ok = None) ∧
  (run send_fails_for_s1 (VObj [("s1", alice); ("s2", bob)])).2 = inr () ∧
  events_of "s2" (trace (run send_fails_for_s1
                           (VObj [("s1", alice); ("s2", bob)])).1)
  = events_of "s2" (trace (run all_ok (VObj [("s1", alice); ("s2", bob)])).1) ∧
  get_prop (store (run send_fails_for_s1
                     (VObj [("s1", alice); ("s2", bob)])).1) "s2"
  = get_prop (store (run all_ok (VObj [("s1", alice); ("s2", bob)])).1) "s2".
Proof.
  split; [split; reflexivity|].
  destruct (failure_isolation send_fails_for_s1 all_ok
              (VObj [("s1", alice); ("s2", bob)]) eq_refl eq_refl)
    as (_ & Hj & _ & _ & Hdone).
  split.
  - apply Hdone. intros k session Hk.
    vm_compute in Hk.
    apply elem_of_cons in Hk as [->|Hk];
      [|apply elem_of_cons in Hk as [->|Hk]; [|by inversion Hk]];
      intros [= <-]; (split; [reflexivity|]);
      intros details name [= <-] [= <-] props; discriminate.
  - apply (Hj "s2"); [intros m|]; reflexivity.
Defined.

(** ** What the console shows *)

Lemma console_of_attempt e k name :
  filter (λ ev, is_console ev = true) ((attempt_events e k name).*2) =
  match send_outcome e k (make_message name) with
  | Some err => [ConsoleError error_label err]
  | None =>
      match update_outcome e k with
      | Some err => [ConsoleError error_label err]
      | None => [ConsoleLog ("Notification sent for card: " +:+ to_string name)]
      end
  end.
Proof.
  unfold attempt_events.
  by destruct (send_outcome e k _); [|destruct (update_outcome e k)].
Qed.

(** C6, as amended. When the send for a session succeeds and the update
    that follows fails, the run prints for that session exactly one entry:
    [console.error] of the label "Error sending notification:" and the error
    the update raised, and no success line. The entry is the one the run
    prints when the send itself fails with that error; it carries no session
    id. *)
Theorem mark_failure_logged_like_send_failure (e : env) (st : value)
    (k : string) (m : message) (err : js_error) :
  (k, Send m) ∈ trace (run e st).1 →
  send_outcome e k m = None →
  update_outcome e k = Some err →
  filter (λ ev, is_console ev = true) (events_of k (trace (run e st).1))
    = [ConsoleError "Error sending notification:" err] ∧
  (∀ e',
      once_outcome e' = None →
      send_outcome e' k m = Some err →
      filter (λ ev, is_console ev = true) (events_of k (trace (run e' st).1))
      = [ConsoleError "Error sending notification:" err]).
Proof.
  intros (Ho & Hk & name & Hp & ->)%run_send_elem Hs Hu. split.
  - rewrite run_events_of, decide_True by done.
    unfold plan_events. rewrite Hp, console_of_attempt, Hs, Hu. done.
  - intros e' Ho' Hs'.
    rewrite run_events_of, decide_True by done.
    unfold plan_events. rewrite Hp, console_of_attempt, Hs'. done.
Qed.

Lemma mark_failure_logged_like_send_failure_witness :
  (("s1", Send (make_message (VStr "Alice")))
     ∈ trace (run mark_fails (VObj [("s1", alice)])).1 ∧
   send_outcome mark_fails "s1" (make_message (VStr "Alice")) = None ∧
   update_outcome mark_fails "s1" = Some (Rejection "timeout")) ∧
  filter (λ ev, is_console ev = true)
    (events_of "s1" (trace (run mark_fails (VObj [("s1", alice)])).1))
  = [ConsoleError "Error sending notification:" (Rejection "timeout")].
Proof.
  assert (H : ("s1", Send (make_message (VStr "Alice")))
                ∈ trace (run mark_fails (VObj [("s1", alice)])).1)
    by (vm_compute; left).
  split; [split_and!; [exact H | reflexivity | reflexivity]|].
  destruct (mark_failure_logged_like_send_failure mark_fails
              (VObj [("s1", alice)]) "s1" (make_message (VStr "Alice"))
              (Rejection "timeout") H eq_refl eq_refl) as [Hlog _].
  exact Hlog.
Defined.

(** C6, as stated, fails: a run in which the send for [s2] succeeded and
    the update failed prints exactly what a run prints in which the send for
    [s1] failed; neither the kind of failure nor the session can be read off
    the console. *)
Lemma mark_failure_log_not_distinct :
  (send_outcome mark_fails "s2" (make_message (VStr "Bob")) = None ∧
   update_outcome mark_fails "s2" = Some (Rejection "timeout") ∧
   ("s2", Update "s2" [("notified", VBool true)])
     ∈ trace (run mark_fails (VObj [("s2", bob)])).1) ∧
  (send_outcome send_fails "s1" (make_message (VStr "Alice"))
     = Some (Rejection "timeout") ∧
   ("s1", Send (make_message (VStr "Alice")))
     ∈ trace (run send_fails (VObj [("s1", alice)])).1) ∧
  console (trace (run mark_fails (VObj [("s2", bob)])).1)
  = console (trace (run send_fails (VObj [("s1", alice)])).1).
Proof.
  split_and!; try reflexivity.
  - vm_compute. right. left.
  - vm_compute. left.
Qed.

(** ** The flag over one run and over many *)

Lemma run_store_cases e st k :
  get_prop (store (run e st).1) k = get_prop st k ∨
  ∃ fs notified,
    get_prop st k = inr (VObj fs) ∧
    get_prop (VObj fs) "notified" = inr notified ∧
    is_true notified = false ∧
    get_prop (store (run e st).1) k
      = inr (VObj (set_prop "notified" (VBool true) fs)).
Proof.
  destruct (run_store_at e st k) as [[H _]|(_ & _ & Hm & fs & Hs & Hf)];
    [by left|right].
  apply marked_Attempts in Hm as (name & Hp & _).
  apply plan_of_Attempts in Hp
    as (session & details & notified & Hs' & _ & _ & Hn & Hnt & _).
  rewrite Hs in Hs'. injection Hs' as <-.
  by exists fs, notified.
Qed.

Lemma notified_true_not_marked e st k :
  field st k "notified" = inr (VBool true) → marked e st k = false.
Proof.
  unfold field. intros Hf.
  destruct (marked e st k) eqn:Hm; [|done].
  apply marked_Attempts in Hm as (name & Hp & _).
  apply plan_of_Attempts in Hp
    as (session & details & notified & Hs & _ & _ & Hn & Hnt & _).
  rewrite Hs, Hn in Hf. by injection Hf as ->.
Qed.

Lemma field_ext st st' k f :
  get_prop st k = get_prop st' k → field st k f = field st' k f.
Proof. unfold field. by intros ->. Qed.

Lemma runs_notified_true es :
  ∀ st k, field st k "notified" = inr (VBool true) →
          get_prop (runs es st) k = get_prop st k.
Proof.
  induction es as [|e es IH]; intros st k Hf; simpl; [done|].
  pose proof (run_store_unmarked e st k (notified_true_not_marked e st k Hf))
    as Hsame.
  rewrite IH; [done|].
  by rewrite (field_ext _ st k "notified" Hsame).
Qed.

Lemma runs_notified_step es :
  ∀ st k, field (runs es st) k "notified" = field st k "notified" ∨
          field (runs es st) k "notified" = inr (VBool true).
Proof.
  induction es as [|e es IH]; intros st k; simpl; [by left|].
  destruct (run_store_cases e st k) as [Hsame|(fs & n & Hs & Hn & Hnt & Hf)].
  - rewrite <- (field_ext _ st k "notified" Hsame). apply IH.
  - right.
    assert (Ht : field (store (run e st).1) k "notified" = inr (VBool true)).
    { unfold field. rewrite Hf. simpl. by rewrite assoc_set_prop_eq. }
    by rewrite (field_ext _ _ k "notified" (runs_notified_true es _ k Ht)).
Qed.

Lemma updates_of_attempt e k name :
  (length (filter (λ ev, is_update ev = true) ((attempt_events e k name).*2))
   ≤ 1)%nat.
Proof.
  unfold attempt_events.
  destruct (send_outcome e k _); [|destruct (update_outcome e k)];
    simpl; lia.
Qed.

(** C8. The only write a run issues is the update [notified: true], addressed
    to a session that is in the snapshot; the run neither adds nor removes a
    session; a record is either as it was or was not yet [notified: true]
    and differs only in that [notified] is now [true], so no other field
    is written; a run issues at most one update per session; and over any
    number of successive runs a flag that is [true] stays [true] with its
    record untouched, and a flag is either what it was or [true]. *)
Theorem notified_only_ever_set (e : env) (st : value) :
  (∀ k child patch,
      (k, Update child patch) ∈ trace (run e st).1 →
      child = k ∧ patch = [("notified", VBool true)] ∧
      k ∈ for_in_keys st ∧ ∃ fs, get_prop st k = inr (VObj fs)) ∧
  for_in_keys (store (run e st).1) = for_in_keys st ∧
  (∀ k,
      get_prop (store (run e st).1) k = get_prop st k ∨
      ∃ fs notified,
        get_prop st k = inr (VObj fs) ∧
        get_prop (VObj fs) "notified" = inr notified ∧
        is_true notified = false ∧
        get_prop (store (run e st).1) k
          = inr (VObj (set_prop "notified" (VBool true) fs))) ∧
  (∀ k f, f ≠ "notified" → field (store (run e st).1) k f = field st k f) ∧
  (∀ k, (length (filter (λ ev, is_update ev = true)
                   (events_of k (trace (run e st).1))) ≤ 1)%nat) ∧
  (∀ es k,
      field st k "notified" = inr (VBool true) →
      get_prop (runs es st) k = get_prop st k) ∧
  (∀ es k,
      field (runs es st) k "notified" = field st k "notified" ∨
      field (runs es st) k "notified" = inr (VBool true)).
Proof.
  split_and!.
  - intros k child patch (_ & Hk & Hev)%run_trace_elem.
    unfold plan_events in Hev.
    destruct (plan_of st k) as [| |name] eqn:Hp; [by inversion Hev..|].
    apply update_in_attempt_events in Hev as (_ & _ & -> & ->).
    split_and!; [done | done | by eapply elem_of_reached |].
    apply plan_of_Attempts_object in Hp as (ss & fs & -> & Hfs).
    exists fs. simpl. by rewrite Hfs.
  - apply run_keys.
  - apply run_store_cases.
  - intros k f Hne.
    destruct (run_store_cases e st k) as [Hsame|(fs & n & Hs & _ & _ & Hf)].
    + by apply field_ext.
    + unfold field. rewrite Hf, Hs. simpl.
      by rewrite assoc_set_prop_ne by done.
  - intros k. rewrite run_events_of. destruct (decide _); [|simpl; lia].
    unfold plan_events. destruct (plan_of st k); [simpl; lia..|].
    apply updates_of_attempt.
  - intros es k. apply runs_notified_true.
  - intros es k. apply runs_notified_step.
Qed.

Lemma notified_only_ever_set_witness :
  (("s1", Update "s1" [("notified", VBool true)])
     ∈ trace (run all_ok (VObj [("s1", alice); ("s2", no_card)])).1 ∧
   "s1" ∈ for_in_keys (VObj [("s1", alice); ("s2", no_card)])) ∧
  for_in_keys (store (run all_ok (VObj [("s1", alice); ("s2", no_card)])).1)
  = ["s1"; "s2"] ∧
  (field (VObj [("s1", alice_notified)]) "s1" "notified" = inr (VBool true) ∧
   get_prop (runs [all_ok; mark_fails; all_ok] (VObj [("s1", alice_notified)])) "s1"
   = inr alice_notified).
Proof.
  destruct (notified_only_ever_set all_ok (VObj [("s1", alice); ("s2", no_card)]))
    as (Hupd & Hkeys & _).
  split; [|split].
  - split; [vm_compute; right; left|].
    destruct (Hupd "s1" "s1" [("notified", VBool true)])
      as (_ & _ & Hk & _); [vm_compute; right; left | exact Hk].
  - exact Hkeys.
  - split; [reflexivity|].
    destruct (notified_only_ever_set all_ok (VObj [("s1", alice_notified)]))
      as (_ & _ & _ & _ & _ & Hstay & _).
    apply (Hstay [all_ok; mark_fails; all_ok] "s1"). reflexivity.
Defined.

(** ** The scenarios of the specification, run *)

Example scenario_delivered :
  run all_ok (VObj [("s1", alice)]) =
  (World (VObj [("s1", alice_notified)])
     [("s1", Send (make_message (VStr "Alice")));
      ("s1", Update "s1" [("notified", VBool true)]);
      ("s1", ConsoleLog "Notification sent for card: Alice")],
   inr ()).
Proof. reflexivity. Qed.

Example scenario_already_notified :
  run all_ok (VObj [("s1", alice_notified)]) =
  (World (VObj [("s1", alice_notified)]) [], inr ()).
Proof. reflexivity. Qed.

Example scenario_only_card_sessions :
  trace (run all_ok (VObj [("s1", bob); ("s2", no_card)])).1 =
  [("s1", Send (make_message (VStr "Bob")));
   ("s1", Update "s1" [("notified", VBool true)]);
   ("s1", ConsoleLog "Notification sent for card: Bob")].
Proof. reflexivity. Qed.

Example scenario_send_fails :
  run send_fails (VObj [("s1", alice)]) =
  (World (VObj [("s1", alice)])
     [("s1", Send (make_message (VStr "Alice")));
      ("s1", ConsoleError "Error sending notification:" (Rejection "timeout"))],
   inr ()).
Proof. reflexivity. Qed.

Example scenario_mark_fails :
  run mark_fails (VObj [("s1", alice)]) =
  (World (VObj [("s1", alice)])
     [("s1", Send (make_message (VStr "Alice")));
      ("s1", Update "s1" [("notified", VBool true)]);
      ("s1", ConsoleError "Error sending notification:" (Rejection "timeout"))],
   inr ()).
Proof. reflexivity. Qed.

Example scenario_empty : run all_ok VNull = (World VNull [], inr ()).
Proof. reflexivity. Qed.

(** A [null] session stops the loop: reading [cardPaymentDetails] off it
    raises outside the [try], and the sessions after it are not visited. *)
Example null_session_aborts :
  run all_ok (VObj [("s1", VNull); ("s2", alice)]) =
  (World (VObj [("s1", VNull); ("s2", alice)]) [], inl TypeError).
Proof. reflexivity. Qed.

(** A string under the reference is walked character by character and
    nothing is sent. *)
Example string_snapshot :
  for_in_keys (VStr "abc") = ["0"; "1"; "2"] ∧
  get_prop (VStr "abc") "1" = inr (VStr "b") ∧
  run all_ok (VStr "abc") = (World (VStr "abc") [], inr ()).
Proof. split_and!; reflexivity. Qed.

(** ** How a run fails *)

Lemma get_prop_inl v f err :
  get_prop v f = inl err → err = TypeError ∧ nullish v = true.
Proof.
  destruct v; simpl; try done; try by intros [= <-].
  destruct (key_index f); [destruct (String.get _ _)|case_decide]; done.
Qed.

Lemma plan_of_Fails_TypeError data k err :
  plan_of data k = Fails err → err = TypeError.
Proof.
  intros Hp.
  pose proof Hp as [Hf|[(session & Hs & Hnull)|(? & ? & name & _ & _ & _ & Hi)]]
    %plan_of_Fails.
  - by apply get_prop_inl in Hf as [-> _].
  - unfold plan_of in Hp. rewrite Hs in Hp.
    destruct session; try done; by injection Hp as <-.
  - by apply interpolate_inl in Hi.
Qed.

Lemma plan_of_nullish data k session :
  get_prop data k = inr session → nullish session = true →
  plan_of data k = Fails TypeError.
Proof. intros Hs Hnull. unfold plan_of. rewrite Hs. by destruct session. Qed.

Lemma loop_result_cases data keys :
  loop_result data keys = inr () ∨ loop_result data keys = inl TypeError.
Proof.
  induction keys as [|k keys IH]; simpl; [by left|].
  destruct (plan_of data k) as [err| |name] eqn:Hp; [|done..].
  right. by rewrite (plan_of_Fails_TypeError _ _ _ Hp).
Qed.

Lemma loop_result_inr data keys :
  loop_result data keys = inr () ↔
  ∀ k, k ∈ keys → ∀ err, plan_of data k ≠ Fails err.
Proof.
  split; [|apply loop_result_no_Fails].
  induction keys as [|k keys IH]; simpl; [by intros _ k ?%elem_of_nil|].
  destruct (plan_of data k) as [err| |name] eqn:Hp; [done| |];
    (intros Hr k' [->|Hk']%elem_of_cons err';
     [by rewrite Hp | by apply IH]).
Qed.

Lemma loop_result_failing_key data keys err :
  loop_result data keys = inl err →
  ∃ k, k ∈ keys ∧ plan_of data k = Fails err.
Proof.
  induction keys as [|k keys IH]; simpl; [done|].
  destruct (plan_of data k) as [err'| |name] eqn:Hp.
  - intros [= ->]. exists k. split; [left | done].
  - intros (k' & ? & ?)%IH. exists k'. split; [by right | done].
  - intros (k' & ? & ?)%IH. exists k'. split; [by right | done].
Qed.

Lemma reached_before_Fails data before k after err :
  plan_of data k = Fails err →
  ∀ j, j ∈ reached data (before ++ k :: after) → j ∈ before.
Proof.
  intros Hp. induction before as [|k0 before IH]; simpl; intros j.
  - by rewrite Hp.
  - destruct (plan_of data k0); [by intros ?%elem_of_nil| |];
      (intros [->|H]%elem_of_cons; [left | right; by apply IH]).
Qed.

(** X1. A run that fetched the snapshot ends in one of two ways: it
    completes, or it is rejected with a TypeError. It is rejected whenever
    some session of the snapshot is [null] or [undefined]; and when no
    cardholder name in the snapshot is an object, that is the only way it
    is rejected. *)
Theorem run_fails_iff_null_session (e : env) (st : value) :
  once_outcome e = None →
  ((run e st).2 = inr () ∨ (run e st).2 = inl TypeError) ∧
  ((∃ k session,
       k ∈ for_in_keys st ∧ get_prop st k = inr session ∧
       nullish session = true) →
   (run e st).2 = inl TypeError) ∧
  ((∀ k session details name,
       k ∈ for_in_keys st → get_prop st k = inr session →
       get_prop session "cardPaymentDetails" = inr details →
       get_prop details "cardHolderName" = inr name →
       ∀ props, name ≠ VObj props) →
   (run e st).2 = inl TypeError →
   ∃ k session,
     k ∈ for_in_keys st ∧ get_prop st k = inr session ∧
     nullish session = true).
Proof.
  intros Ho. rewrite run_result by done.
  split; [apply loop_result_cases|]. split.
  - intros (k & session & Hk & Hs & Hnull).
    destruct (loop_result_cases st (for_in_keys st)) as [Hr|Hr]; [|done].
    rewrite loop_result_inr in Hr.
    by destruct (Hr k Hk TypeError (plan_of_nullish st k session Hs Hnull)).
  - intros Hnames (k & Hk & Hp)%loop_result_failing_key. exists k.
    destruct (get_prop_key st k Hk) as [v Hv].
    apply plan_of_Fails in Hp
      as [Hf|[(session & Hs & Hnull)
             |(session & details & name & Hs & Hd & Hn & Hi)]].
    + congruence.
    + by exists session.
    + rewrite interpolate_primitive in Hi; [done|].
      by eapply (Hnames k session details name).
Qed.

Lemma run_fails_iff_null_session_witness :
  once_outcome all_ok = None ∧
  (run all_ok (VObj [("s1", alice); ("s2", VNull)])).2 = inl TypeError.
Proof.
  split; [reflexivity|].
  destruct (run_fails_iff_null_session all_ok
              (VObj [("s1", alice); ("s2", VNull)]) eq_refl) as (_ & Hnull & _).
  apply Hnull. exists "s2", VNull.
  split_and!; [vm_compute; right; left | reflexivity | reflexivity].
Defined.

(** X2. A session that is [null] or [undefined] ends the loop where it
    stands: for that session and for every session that comes after it in
    the enumeration of the snapshot, the run does nothing (no send, no
    update, no console entry) and leaves the record as it was. *)
Theorem sessions_after_null_not_visited (e : env) (st : value)
    (before after : list string) (k : string) (session : value) :
  for_in_keys st = before ++ k :: after →
  get_prop st k = inr session →
  nullish session = true →
  ∀ j, j = k ∨ j ∈ after →
       events_of j (trace (run e st).1) = [] ∧
       get_prop (store (run e st).1) j = get_prop st j.
Proof.
  intros Hkeys Hs Hnull j Hj.
  assert (Hp : plan_of st k = Fails TypeError).
  { unfold plan_of. rewrite Hs. by destruct session. }
  assert (Hnot : j ∉ reached st (for_in_keys st)).
  { rewrite Hkeys. intros Hin%(reached_before_Fails _ _ _ _ _ Hp).
    pose proof (NoDup_for_in_keys st) as Hnd. rewrite Hkeys in Hnd.
    apply NoDup_app in Hnd as (_ & Hdisj & _).
    apply (Hdisj j Hin). destruct Hj as [->|Hj]; [left | by right]. }
  split.
  - rewrite run_events_of. rewrite decide_False; [done | tauto].
  - destruct (run_store_at e st j) as [[? _]|(_ & ? & _)]; done.
Qed.

Lemma sessions_after_null_not_visited_witness :
  (for_in_keys (VObj [("s1", alice); ("s2", VNull); ("s3", bob)])
     = ["s1"] ++ "s2" :: ["s3"] ∧
   get_prop (VObj [("s1", alice); ("s2", VNull); ("s3", bob)]) "s2"
     = inr VNull ∧
   nullish VNull = true) ∧
  events_of "s3"
    (trace (run all_ok (VObj [("s1", alice); ("s2", VNull); ("s3", bob)])).1)
  = [] ∧
  get_prop (store (run all_ok
                     (VObj [("s1", alice); ("s2", VNull); ("s3", bob)])).1) "s3"
  = get_prop (VObj [("s1", alice); ("s2", VNull); ("s3", bob)]) "s3".
Proof.
  split; [split_and!; reflexivity|].
  apply (sessions_after_null_not_visited all_ok
           (VObj [("s1", alice); ("s2", VNull); ("s3", bob)])
           ["s1"] ["s3"] "s2" VNull eq_refl eq_refl eq_refl "s3").
  right. left.
Defined.

(** ** Snapshots with nothing to do *)

Lemma run_all_Skips e st :
  once_outcome e = None →
  (∀ k, k ∈ for_in_keys st → plan_of st k = Skips) →
  run e st = (World st [], inr ()).
Proof.
  intros Ho Hall. rewrite run_eq, Ho.
  assert (Hgen : ∀ keys, (∀ k, k ∈ keys → plan_of st k = Skips) →
            reached st keys = keys ∧ loop_result st keys = inr () ∧
            keys ≫= plan_events e st = [] ∧
            ∀ st', foldl (plan_store e st) st' keys = st').
  { induction keys as [|k keys IH]; intros Hk; [done|].
    destruct IH as (Hr & Hl & Hb & Hf).
    { intros k' ?. apply Hk. by right. }
    assert (Hp : plan_of st k = Skips) by (apply Hk; left).
    cbn [reached loop_result foldl]. rewrite Hp, Hr, Hl, bind_cons, Hb.
    split_and!; [done..| |].
    - unfold plan_events. by rewrite Hp.
    - intros st'. rewrite Hf. unfold plan_store. by rewrite Hp. }
  destruct (Hgen _ Hall) as (-> & -> & -> & ->). done.
Qed.

Lemma plan_of_no_card data k session :
  get_prop data k = inr session →
  nullish session = false →
  has_prop session "cardPaymentDetails" = false →
  plan_of data k = Skips.
Proof.
  intros Hs Hnull Hno. unfold plan_of. rewrite Hs.
  destruct session as [| |b|n|s|fs]; try done.
  simpl in *. apply bool_decide_eq_false in Hno.
  destruct (assoc "cardPaymentDetails" fs); [|done].
  destruct Hno. eauto.
Qed.

(** X3. When what is stored under the reference is not an object with at
    least one key (nothing at all, a number, a boolean, a string, or the
    empty object), a run that fetched it completes without sending,
    updating or printing anything, and the database is as it was. *)
Theorem nothing_to_scan (e : env) (st : value) :
  once_outcome e = None →
  (∀ ss, st = VObj ss → ss = []) →
  run e st = (World st [], inr ()).
Proof.
  intros Ho Hst. apply run_all_Skips; [done|].
  intros k Hk. destruct st as [| |b|n|s|ss]; try by inversion Hk.
  - destruct (get_prop_string_key s k Hk) as [c Hc].
    by apply (plan_of_no_card _ _ _ Hc).
  - rewrite (Hst ss eq_refl) in Hk. inversion Hk.
Qed.

Lemma nothing_to_scan_witness :
  once_outcome send_fails = None ∧
  run send_fails (VStr "pending") = (World (VStr "pending") [], inr ()).
Proof.
  split; [reflexivity|].
  apply (nothing_to_scan send_fails (VStr "pending") eq_refl).
  intros ss Hss. discriminate Hss.
Defined.

(** X4. A session that is not [null] or [undefined] and has no
    [cardPaymentDetails] of its own (an object without that key, or a
    number, boolean or string stored in place of a record) is passed over:
    its turn of the loop does nothing and does not raise, no event of the
    run belongs to it, and its record is as it was. *)
Theorem session_without_card_skipped (e : env) (st : value) (k : string)
    (session : value) :
  get_prop st k = inr session →
  nullish session = false →
  has_prop session "cardPaymentDetails" = false →
  (∀ w, loop_body e st k w = (w, inr ())) ∧
  events_of k (trace (run e st).1) = [] ∧
  get_prop (store (run e st).1) k = get_prop st k.
Proof.
  intros Hs Hnull Hno.
  pose proof (plan_of_no_card st k session Hs Hnull Hno) as Hp.
  split_and!.
  - intros w. by rewrite loop_body_eq, Hp.
  - rewrite run_events_of. unfold plan_events. rewrite Hp.
    by destruct (decide _).
  - apply run_store_unmarked. unfold marked. by rewrite Hp.
Qed.

Lemma session_without_card_skipped_witness :
  (get_prop (VObj [("s1", bob); ("s2", no_card)]) "s2" = inr no_card ∧
   nullish no_card = false ∧
   has_prop no_card "cardPaymentDetails" = false) ∧
  (∀ w, loop_body all_ok (VObj [("s1", bob); ("s2", no_card)]) "s2" w
        = (w, inr ())) ∧
  events_of "s2" (trace (run all_ok (VObj [("s1", bob); ("s2", no_card)])).1)
  = [] ∧
  get_prop (store (run all_ok (VObj [("s1", bob); ("s2", no_card)])).1) "s2"
  = get_prop (VObj [("s1", bob); ("s2", no_card)]) "s2".
Proof.
  split; [split_and!; reflexivity|].
  apply (session_without_card_skipped all_ok
           (VObj [("s1", bob); ("s2", no_card)]) "s2" no_card);
    reflexivity.
Defined.

(** ** The order of the sends *)

Lemma selected_iff data k :
  selected data k = true ↔
  ∃ session,
    get_prop data k = inr session ∧
    ∃ details notified,
      get_prop session "cardPaymentDetails" = inr details ∧
      truthy details = true ∧
      get_prop session "notified" = inr notified ∧
      is_true notified = false.
Proof.
  unfold selected.
  destruct (get_prop data k) as [|session];
    [split; [done | by intros (? & ? & _)]|].
  pose proof (guard_true_iff session (World data [])) as Hg.
  destruct (guard session (World data [])) as [w r] eqn:Hgs.
  rewrite guard_eq in Hgs. injection Hgs as <- Hr. cbn [snd]. split.
  - intros H. exists session. split; [done|]. apply Hg.
    by destruct r as [|[]].
  - intros (? & [= <-] & Hc). apply Hg in Hc. by injection Hc as ->.
Qed.

Lemma Attempts_selected data k name :
  plan_of data k = Attempts name → selected data k = true.
Proof.
  intros (session & details & notified & ? & ? & ? & ? & ? & _)
    %plan_of_Attempts.
  apply selected_iff. exists session. split; [done|].
  by exists details, notified.
Qed.

Lemma selected_Attempts data k :
  selected data k = true → (∀ err, plan_of data k ≠ Fails err) →
  ∃ name, plan_of data k = Attempts name.
Proof.
  intros (session & Hs & Hcond)%selected_iff Hno.
  destruct (plan_of_guard data k session Hs Hcond) as [?|Hf]; [done|].
  by destruct (Hno TypeError).
Qed.

Lemma sends_of_attempt e k name :
  (filter (λ p, is_send p.2 = true) (attempt_events e k name)).*1 = [k].
Proof.
  unfold attempt_events.
  by destruct (send_outcome e k _); [|destruct (update_outcome e k)].
Qed.

Lemma sends_of_plan_trace e data ks :
  (∀ k, k ∈ ks → ∀ err, plan_of data k ≠ Fails err) →
  (filter (λ p, is_send p.2 = true) (ks ≫= plan_events e data)).*1 =
  filter (λ k, selected data k = true) ks.
Proof.
  induction ks as [|k ks IH]; intros Hno; [done|].
  rewrite bind_cons, filter_app, fmap_app, IH
    by (intros k' ?; apply Hno; by right).
  unfold plan_events.
  destruct (selected data k) eqn:Hsel.
  - rewrite filter_cons_True by done.
    apply selected_Attempts in Hsel as [name ->]; [|apply Hno; left].
    by rewrite sends_of_attempt.
  - rewrite filter_cons_False by (by rewrite Hsel).
    destruct (plan_of data k) as [| |name] eqn:Hp; [done..|].
    apply Attempts_selected in Hp. congruence.
Qed.

(** X5. In a run that fetched the snapshot and completed, the sessions for
    which [messaging.send] is called, in the order of the calls, are the
    keys of the snapshot for which the guard of line 24 holds, in the order
    the loop enumerates them; no session is sent for twice. *)
Theorem sends_in_key_order (e : env) (st : value) :
  once_outcome e = None →
  (run e st).2 = inr () →
  (filter (λ p, is_send p.2 = true) (trace (run e st).1)).*1
    = filter (λ k, selected st k = true) (for_in_keys st) ∧
  NoDup ((filter (λ p, is_send p.2 = true) (trace (run e st).1)).*1).
Proof.
  intros Ho Hdone.
  assert (Heq : (filter (λ p, is_send p.2 = true) (trace (run e st).1)).*1
                = filter (λ k, selected st k = true) (for_in_keys st)).
  { rewrite run_eq, Ho. cbn [fst trace].
    rewrite (run_completes_reached e st Ho Hdone).
    apply sends_of_plan_trace, loop_result_inr.
    by rewrite <- (run_result e) by done. }
  split; [done|]. rewrite Heq. apply NoDup_filter, NoDup_for_in_keys.
Qed.

Lemma sends_in_key_order_witness :
  (once_outcome send_fails_for_s1 = None ∧
   (run send_fails_for_s1
      (VObj [("s1", alice); ("s2", no_card); ("s3", bob)])).2 = inr ()) ∧
  (filter (λ p, is_send p.2 = true)
     (trace (run send_fails_for_s1
               (VObj [("s1", alice); ("s2", no_card); ("s3", bob)])).1)).*1
  = ["s1"; "s3"].
Proof.
  split; [split; reflexivity|].
  destruct (sends_in_key_order send_fails_for_s1
              (VObj [("s1", alice); ("s2", no_card); ("s3", bob)])
              eq_refl eq_refl) as [Heq _].
  rewrite Heq. reflexivity.
Defined.

(** ** The success line *)

Lemma log_in_attempt_events e k name k' line :
  (k', ConsoleLog line) ∈ attempt_events e k name →
  send_outcome e k (make_message name) = None ∧
  update_outcome e k = None ∧
  line = "Notification sent for card: " +:+ to_string name.
Proof.
  unfold attempt_events.
  destruct (send_outcome e k _); [|destruct (update_outcome e k)];
    rewrite ?elem_of_cons, elem_of_nil; intros H;
    repeat destruct H as [[=]|H]; done.
Qed.

Lemma marked_field_true e st k :
  once_outcome e = None →
  k ∈ reached st (for_in_keys st) →
  marked e st k = true →
  field (store (run e st).1) k "notified" = inr (VBool true).
Proof.
  intros Ho Hk Hm.
  destruct (run_store_at e st k) as [[_ Hn]|(_ & _ & _ & fs & _ & Hf)].
  { by destruct Hn. }
  unfold field. rewrite Hf. simpl. by rewrite assoc_set_prop_eq.
Qed.

(** X6. The line "Notification sent for card: ..." is printed for a session
    exactly when both the send and the update for it succeeded; it names the
    cardholder that was put in the message, and whenever it is printed the
    session's record in the database has [notified] equal to [true]. *)
Theorem success_line_iff_delivered (e : env) (st : value) (k : string) :
  (∀ line,
      (k, ConsoleLog line) ∈ trace (run e st).1 →
      ∃ name,
        (k, Send (make_message name)) ∈ trace (run e st).1 ∧
        send_outcome e k (make_message name) = None ∧
        update_outcome e k = None ∧
        line = "Notification sent for card: " +:+ to_string name ∧
        field (store (run e st).1) k "notified" = inr (VBool true)) ∧
  (∀ name,
      (k, Send (make_message name)) ∈ trace (run e st).1 →
      send_outcome e k (make_message name) = None →
      update_outcome e k = None →
      (k, ConsoleLog ("Notification sent for card: " +:+ to_string name))
        ∈ trace (run e st).1).
Proof.
  split.
  - intros line (Ho & Hk & Hev)%run_trace_elem.
    unfold plan_events in Hev.
    destruct (plan_of st k) as [| |name] eqn:Hp; [by inversion Hev..|].
    apply log_in_attempt_events in Hev as (Hs & Hu & ->).
    exists name. split_and!; [|done..|].
    + apply run_send_elem. split_and!; [done..|]. by exists name.
    + apply marked_field_true; [done..|].
      unfold marked, attempt_marks. by rewrite Hp, Hs, Hu.
  - intros name (Ho & Hk & name' & Hp & Hm)%run_send_elem Hs Hu.
    apply run_trace_elem. split_and!; [done..|].
    unfold plan_events, attempt_events. rewrite Hp.
    rewrite Hm in Hs. rewrite Hs, Hu.
    assert (to_string name = to_string name') as ->.
    { by injection Hm as ?%(inj (String.append _)). }
    right. right. left.
Qed.

Lemma success_line_iff_delivered_witness :
  ("s1", ConsoleLog "Notification sent for card: Alice")
    ∈ trace (run all_ok (VObj [("s1", alice)])).1 ∧
  field (store (run all_ok (VObj [("s1", alice)])).1) "s1" "notified"
  = inr (VBool true).
Proof.
  assert (H : ("s1", ConsoleLog "Notification sent for card: Alice")
                ∈ trace (run all_ok (VObj [("s1", alice)])).1)
    by (vm_compute; right; right; left).
  split; [exact H|].
  destruct (success_line_iff_delivered all_ok (VObj [("s1", alice)]) "s1")
    as [Hlog _].
  destruct (Hlog _ H) as (name & _ & _ & _ & _ & Hfield).
  exact Hfield.
Defined.

(** ** After a successful mark *)

Lemma notified_true_not_attempted st k name :
  field st k "notified" = inr (VBool true) → plan_of st k ≠ Attempts name.
Proof.
  unfold field.
  intros Hf (session & details & notified & Hs & _ & _ & Hn & Hnt & _)
    %plan_of_Attempts.
  rewrite Hs, Hn in Hf. by injection Hf as ->.
Qed.

(** X7. Once the update for a session has succeeded in a run, no later run
    sends for that session again, however many runs come in between and
    however the services answer. *)
Theorem marked_never_sent_again (e : env) (st : value) (k : string)
    (patch : list (string * value)) :
  (k, Update k patch) ∈ trace (run e st).1 →
  update_outcome e k = None →
  ∀ es e' m,
    (k, Send m) ∉ trace (run e' (runs es (store (run e st).1))).1.
Proof.
  intros (Ho & Hk & Hev)%run_trace_elem Hu es e' m.
  unfold plan_events in Hev.
  destruct (plan_of st k) as [| |name] eqn:Hp; [by inversion Hev..|].
  apply update_in_attempt_events in Hev as (Hs & _).
  assert (Ht : field (store (run e st).1) k "notified" = inr (VBool true)).
  { apply marked_field_true; [done..|].
    unfold marked, attempt_marks. by rewrite Hp, Hs, Hu. }
  pose proof (runs_notified_true es _ k Ht) as Hsame.
  intros (_ & _ & name' & Hp' & _)%run_send_elem.
  eapply notified_true_not_attempted; [|exact Hp'].
  by rewrite (field_ext _ _ k "notified" Hsame).
Qed.

Lemma marked_never_sent_again_witness :
  (("s1", Update "s1" [("notified", VBool true)])
     ∈ trace (run all_ok (VObj [("s1", alice); ("s2", bob)])).1 ∧
   update_outcome all_ok "s1" = None) ∧
  ("s1", Send (make_message (VStr "Alice")))
    ∉ trace (run all_ok
               (runs [send_fails; mark_fails]
                  (store (run all_ok (VObj [("s1", alice); ("s2", bob)])).1))).1.
Proof.
  assert (H : ("s1", Update "s1" [("notified", VBool true)])
                ∈ trace (run all_ok (VObj [("s1", alice); ("s2", bob)])).1)
    by (vm_compute; right; left).
  split; [split; [exact H | reflexivity]|].
  apply (marked_never_sent_again all_ok (VObj [("s1", alice); ("s2", bob)])
           "s1" [("notified", VBool true)] H eq_refl
           [send_fails; mark_fails] all_ok).
Defined.

(** X8. After a run that fetched the snapshot and completed, and in which
    every send and every update succeeded, nothing is left to do: any
    further run that fetches the database completes without sending,
    updating or printing anything and leaves the database as it is. *)
Theorem successful_run_leaves_nothing (e : env) (st : value) :
  once_outcome e = None →
  (run e st).2 = inr () →
  (∀ k m, send_outcome e k m = None) →
  (∀ k, update_outcome e k = None) →
  ∀ e', once_outcome e' = None →
        run e' (store (run e st).1) = (World (store (run e st).1) [], inr ()).
Proof.
  intros Ho Hdone Hsend Hupd e' Ho'.
  apply run_all_Skips; [done|]. rewrite run_keys. intros k Hk.
  rewrite <- (run_completes_reached e st Ho Hdone) in Hk.
  destruct (plan_of st k) as [err| |name] eqn:Hp.
  - by destruct (reached_no_Fails st _ k Hk err).
  - rewrite (plan_of_ext _ st k); [done|].
    apply run_store_unmarked. unfold marked. by rewrite Hp.
  - assert (Hm : marked e st k = true).
    { unfold marked, attempt_marks. by rewrite Hp, Hsend, Hupd. }
    destruct (run_store_at e st k) as [[_ Hn]|(_ & _ & _ & fs & Hs & Hf)].
    { by destruct Hn. }
    apply plan_of_Attempts in Hp
      as (session & details & notified & Hs' & Hd & Ht & _).
    rewrite Hs in Hs'. injection Hs' as <-.
    unfold plan_of. rewrite Hf. simpl in *.
    rewrite assoc_set_prop_ne by done.
    injection Hd as ->. rewrite Ht.
    by rewrite assoc_set_prop_eq.
Qed.

Lemma successful_run_leaves_nothing_witness :
  (once_outcome all_ok = None ∧
   (run all_ok (VObj [("s1", alice); ("s2", no_card); ("s3", bob)])).2
   = inr ()) ∧
  run send_fails
    (store (run all_ok (VObj [("s1", alice); ("s2", no_card); ("s3", bob)])).1)
  = (World
       (store (run all_ok
                 (VObj [("s1", alice); ("s2", no_card); ("s3", bob)])).1)
       [], inr ()).
Proof.
  split; [split; reflexivity|].
  apply (successful_run_leaves_nothing all_ok
           (VObj [("s1", alice); ("s2", no_card); ("s3", bob)]));
    reflexivity.
Defined.

(** ** Counting calls *)

Lemma counts_of_plan_events e data k :
  length (filter (λ ev, is_console ev = true) ((plan_events e data k).*2))
  = length (filter (λ ev, is_send ev = true) ((plan_events e data k).*2)) ∧
  (length (filter (λ ev, is_update ev = true) ((plan_events e data k).*2))
   ≤ length (filter (λ ev, is_send ev = true) ((plan_events e data k).*2)))%nat.
Proof.
  unfold plan_events. destruct (plan_of data k); [done..|].
  unfold attempt_events.
  destruct (send_outcome e k _); [|destruct (update_outcome e k)];
    simpl; split; lia.
Qed.

Lemma counts_of_plan_trace e data ks :
  length (filter (λ ev, is_console ev = true) ((ks ≫= plan_events e data).*2))
  = length (filter (λ ev, is_send ev = true) ((ks ≫= plan_events e data).*2)) ∧
  (length (filter (λ ev, is_update ev = true) ((ks ≫= plan_events e data).*2))
   ≤ length (filter (λ ev, is_send ev = true)
               ((ks ≫= plan_events e data).*2)))%nat.
Proof.
  induction ks as [|k ks [IH1 IH2]]; [done|].
  rewrite bind_cons, fmap_app, !filter_app, !length_app.
  destruct (counts_of_plan_events e data k) as [H1 H2]. lia.
Qed.

(** X9. In every run the console gets exactly one entry per call to
    [messaging.send], and [update] is never called more often than
    [messaging.send]. *)
Theorem one_console_entry_per_send (e : env) (st : value) :
  length (console (trace (run e st).1))
  = length (filter (λ ev, is_send ev = true) ((trace (run e st).1).*2)) ∧
  (length (filter (λ ev, is_update ev = true) ((trace (run e st).1).*2))
   ≤ length (filter (λ ev, is_send ev = true) ((trace (run e st).1).*2)))%nat.
Proof.
  unfold console. rewrite run_eq.
  destruct (once_outcome e); cbn [fst trace]; [done|].
  apply counts_of_plan_trace.
Qed.

(** ** After a failed send *)

(** X10. When the send for a session fails, the run leaves the session as
    it found it, and any later run over that database which completes calls
    [messaging.send] with the same message again: a failed delivery is
    retried by the next run. *)
Theorem failed_send_is_retried (e : env) (st : value) (k : string)
    (m : message) (err : js_error) :
  (k, Send m) ∈ trace (run e st).1 →
  send_outcome e k m = Some err →
  events_of k (trace (run e st).1)
    = [Send m; ConsoleError "Error sending notification:" err] ∧
  ∀ e',
    once_outcome e' = None →
    (run e' (store (run e st).1)).2 = inr () →
    (k, Send m) ∈ trace (run e' (store (run e st).1)).1.
Proof.
  intros Hsend Hs.
  pose proof (send_failure_not_marked e st k m err Hsend Hs) as Hm.
  apply run_send_elem in Hsend as (Ho & Hk & name & Hp & ->).
  split.
  - rewrite run_events_of, decide_True by done.
    unfold plan_events, attempt_events. by rewrite Hp, Hs.
  - intros e' Ho' Hdone'.
    pose proof (run_store_unmarked e st k Hm) as Hsame.
    apply run_send_elem. split_and!; [done| |].
    + rewrite (run_completes_reached e' _ Ho' Hdone'), run_keys.
      by eapply elem_of_reached.
    + exists name. split; [|done].
      by rewrite (plan_of_ext _ st k Hsame).
Qed.

Lemma failed_send_is_retried_witness :
  (("s1", Send (make_message (VStr "Alice")))
     ∈ trace (run send_fails_for_s1 (VObj [("s1", alice); ("s2", bob)])).1 ∧
   send_outcome send_fails_for_s1 "s1" (make_message (VStr "Alice"))
   = Some (Rejection "timeout")) ∧
  ("s1", Send (make_message (VStr "Alice")))
    ∈ trace (run all_ok
               (store (run send_fails_for_s1
                         (VObj [("s1", alice); ("s2", bob)])).1)).1.
Proof.
  assert (H : ("s1", Send (make_message (VStr "Alice")))
                ∈ trace (run send_fails_for_s1
                           (VObj [("s1", alice); ("s2", bob)])).1)
    by (vm_compute; left).
  split; [split; [exact H | reflexivity]|].
  destruct (failed_send_is_retried send_fails_for_s1
              (VObj [("s1", alice); ("s2", bob)]) "s1"
              (make_message (VStr "Alice")) (Rejection "timeout")
              H eq_refl) as [_ Hagain].
  apply Hagain; reflexivity.
Defined.

(** ** A name that does not convert *)

(** X11. When the guard holds for a session whose cardholder name is an
    object with a key [toString] of its own, the template literal of line
    29 throws before the [try] is entered: a run that fetched the snapshot
    is rejected with a TypeError, and for that session and every session
    enumerated after it nothing is sent, updated or printed and the record
    is as it was. *)
Theorem unconvertible_name_aborts (e : env) (st : value)
    (before after : list string) (k : string)
    (session details notified : value) (props : list (string * value)) :
  for_in_keys st = before ++ k :: after →
  get_prop st k = inr session →
  get_prop session "cardPaymentDetails" = inr details →
  truthy details = true →
  get_prop session "notified" = inr notified →
  is_true notified = false →
  get_prop details "cardHolderName" = inr (VObj props) →
  is_Some (assoc "toString" props) →
  (once_outcome e = None → (run e st).2 = inl TypeError) ∧
  ∀ j, j = k ∨ j ∈ after →
       events_of j (trace (run e st).1) = [] ∧
       get_prop (store (run e st).1) j = get_prop st j.
Proof.
  intros Hkeys Hs Hd Ht Hn Hnt Hname Hts.
  assert (Hp : plan_of st k = Fails TypeError).
  { unfold plan_of. rewrite Hs, Hd, Ht, Hn, Hnt, Hname. simpl.
    by rewrite decide_True. }
  split.
  - intros Ho. rewrite run_result by done.
    destruct (loop_result_cases st (for_in_keys st)) as [Hr|Hr]; [|done].
    rewrite loop_result_inr in Hr. destruct (Hr k) with TypeError; [|done].
    rewrite Hkeys, elem_of_app. right. left.
  - intros j Hj.
    assert (Hnot : j ∉ reached st (for_in_keys st)).
    { rewrite Hkeys. intros Hin%(reached_before_Fails _ _ _ _ _ Hp).
      pose proof (NoDup_for_in_keys st) as Hnd. rewrite Hkeys in Hnd.
      apply NoDup_app in Hnd as (_ & Hdisj & _).
      apply (Hdisj j Hin). destruct Hj as [->|Hj]; [left | by right]. }
    split.
    + rewrite run_events_of. rewrite decide_False; [done | tauto].
    + destruct (run_store_at e st j) as [[? _]|(_ & ? & _)]; done.
Qed.

Lemma unconvertible_name_aborts_witness :
  (for_in_keys (VObj [("s1", alice); ("s2", odd_name); ("s3", bob)])
     = ["s1"] ++ "s2" :: ["s3"] ∧
   get_prop (VObj [("s1", alice); ("s2", odd_name); ("s3", bob)]) "s2"
     = inr odd_name) ∧
  (run all_ok (VObj [("s1", alice); ("s2", odd_name); ("s3", bob)])).2
  = inl TypeError ∧
  events_of "s3"
    (trace (run all_ok
              (VObj [("s1", alice); ("s2", odd_name); ("s3", bob)])).1) = [].
Proof.
  split; [split; reflexivity|].
  destruct (unconvertible_name_aborts all_ok
              (VObj [("s1", alice); ("s2", odd_name); ("s3", bob)])
              ["s1"] ["s3"] "s2" odd_name
              (VObj [("cardHolderName", VObj [("toString", VStr "x")])])
              VUndefined [("toString", VStr "x")]
              eq_refl eq_refl eq_refl eq_refl eq_refl eq_refl eq_refl)
    as [Hres Hafter]; [by eexists|].
  split; [by apply Hres|].
  destruct (Hafter "s3") as [Hev _]; [right; left | exact Hev].
Defined.

(** The run of the sample above: the first session is delivered, the second
    stops the loop. *)
Example odd_name_run :
  run all_ok (VObj [("s1", alice); ("s2", odd_name); ("s3", bob)]) =
  (World (VObj [("s1", alice_notified); ("s2", odd_name); ("s3", bob)])
     [("s1", Send (make_message (VStr "Alice")));
      ("s1", Update "s1" [("notified", VBool true)]);
      ("s1", ConsoleLog "Notification sent for card: Alice")],
   inl TypeError).
Proof. reflexivity. Qed.

Example small_numbers_print :
  to_string (VNum 42) = "42" ∧ to_string (VNum (-7)) = "-7" ∧
  to_string (VNum 0) = "0" ∧
  to_string (VNum (2 ^ 53)) = "9007199254740992".
Proof. split_and!; reflexivity. Qed.
